(** * BadWords: the profanity filter of [badwords/check.py]

    A shallow embedding of [ProfanityFilter] and of the Python string
    operations it calls, followed by the properties of the filter.

    - Python [str] values are lists of Unicode code points.
    - Python [float] values are binary64 floats ([PrimFloat.float]); an integer
      threshold such as [1] behaves as the float of the same value in every
      test the filter performs (truthiness and ordered comparison).
    - [set[str]] is a [gset str].
    - Methods that read or write [self] are computations of a state monad over
      the instance.
    - Code outside [check.py] that the filter calls
      ([TextProcessor.process_text], the block matching of
      [difflib.SequenceMatcher], [str.lower], [str.isalpha]) is a parameter
      of the development. *)

From Stdlib Require Import ZArith NArith List Ascii String Floats.
From stdpp Require Import base gmap sets list.
Import ListNotations.

Local Open Scope bool_scope.
Local Open Scope nat_scope.

(** ** Python strings *)

Module PyStr.

Definition char := N.
Definition str := list char.

(** A literal of ASCII characters. *)
Definition lit (s : string) : str := map N_of_ascii (list_ascii_of_string s).

(** [str.isspace] on one code point: the characters CPython's
    [Py_UNICODE_ISSPACE] accepts; [str.split()] and [str.strip()] use it. *)
Definition isspace (c : char) : bool :=
  ((9 <=? c) && (c <=? 13) || (28 <=? c) && (c <=? 32)
   || (c =? 133) || (c =? 160) || (c =? 5760)
   || (8192 <=? c) && (c <=? 8202)
   || (c =? 8232) || (c =? 8233) || (c =? 8239) || (c =? 8287)
   || (c =? 12288))%N.

(** Strings of whitespace only, and strings without any. *)
Definition whitespace (s : str) : Prop := Forall (fun c => isspace c = true) s.
Definition spaceless (s : str) : Prop := Forall (fun c => isspace c = false) s.

(** [s.split()]: the maximal runs of non-whitespace characters, in order.
    [cur] is the run being read. *)
Fixpoint split_from (cur : str) (s : str) : list str :=
  match s with
  | [] => match cur with [] => [] | _ => [cur] end
  | c :: s' =>
      if isspace c
      then match cur with
           | [] => split_from [] s'
           | _ => cur :: split_from [] s'
           end
      else split_from (cur ++ [c]) s'
  end.

Definition split (s : str) : list str := split_from [] s.

(** [s.strip()]. *)
Fixpoint lstrip (s : str) : str :=
  match s with
  | [] => []
  | c :: s' => if isspace c then lstrip s' else s
  end.

Definition rstrip (s : str) : str := rev (lstrip (rev s)).

Definition strip (s : str) : str := rstrip (lstrip s).

(** [s.startswith(p)]. *)
Fixpoint startswith (p s : str) : bool :=
  match p, s with
  | [], _ => true
  | _ :: _, [] => false
  | a :: p', b :: s' => (a =? b)%N && startswith p' s'
  end.

(** [s * n]. *)
Fixpoint mul (s : str) (n : nat) : str :=
  match n with
  | O => []
  | S n' => s ++ mul s n'
  end.

(** [s.replace(old, new)] for a non-empty [old]: the occurrences of [old] are
    found from the left and do not overlap. [skip] counts the characters of
    an occurrence that are still to be passed over. *)
Fixpoint replace_from (old new : str) (skip : nat) (s : str) : str :=
  match s with
  | [] => []
  | c :: s' =>
      match skip with
      | S k => replace_from old new k s'
      | O =>
          if startswith old s
          then new ++ replace_from old new (length old - 1) s'
          else c :: replace_from old new 0 s'
      end
  end.

(** [s.replace(old, new)]; an empty [old] matches before every character and
    at the end. *)
Definition replace (old new : str) (s : str) : str :=
  match old with
  | [] => new ++ flat_map (fun c => c :: new) s
  | _ :: _ => replace_from old new 0 s
  end.

(** [s[-6:-4]]: the slice from the sixth-last to the fourth-last character
    (exclusive), both ends clamped to the string. *)
Definition slice_m6_m4 (s : str) : str :=
  drop (length s - 6) (take (length s - 4) s).

(** What "every occurrence replaced" means for a non-empty [old]: reading
    [s] from the left, an occurrence of [old] at the current position is
    replaced and reading resumes after it; any other character is kept. *)
Inductive Replaced (old new : str) : str -> str -> Prop :=
  | Replaced_nil : Replaced old new [] []
  | Replaced_here rest rest' :
      Replaced old new rest rest' ->
      Replaced old new (old ++ rest) (new ++ rest')
  | Replaced_keep c s s' :
      startswith old (c :: s) = false ->
      Replaced old new s s' ->
      Replaced old new (c :: s) (c :: s').

(** [old in s]: [old] occurs in [s] as a substring. *)
Definition occurs (old s : str) : Prop := exists pre post, s = pre ++ old ++ post.

(** The first occurrence of [old] in [s]: [s] is [pre ++ old ++ rest], and
    [old] occurs at no earlier position. *)
Definition leftmost (old pre rest s : str) : Prop :=
  s = pre ++ old ++ rest /\
  forall pre' rest', s = pre' ++ old ++ rest' -> length pre <= length pre'.

(** [r] is [s] with every occurrence of [old] replaced by [new], the
    occurrences taken from the left and not overlapping. This is the
    meaning of [str.replace] in terms of concatenation alone; it refers to
    none of the functions above. *)
Inductive Redacted (old new : str) : str -> str -> Prop :=
  | Redacted_none s : ~ occurs old s -> Redacted old new s s
  | Redacted_first pre rest s r :
      leftmost old pre rest s ->
      Redacted old new rest r ->
      Redacted old new s (pre ++ new ++ r).

End PyStr.

Import PyStr.

(** ** Python floats and [difflib] *)

Module Difflib.

(** [float(n)] for an integer [n], rounded to the nearest binary64 value. *)
Definition float_of_int (n : Z) : float :=
  SF2Prim (binary_normalize prec emax n 0 false).

(** [difflib._calculate_ratio(matches, length)]:
    [2.0 * matches / length], and [1.0] when [length] is [0]. *)
Definition calculate_ratio (matches length : nat) : float :=
  match length with
  | O => 1%float
  | S _ =>
      (2 * float_of_int (Z.of_nat matches) / float_of_int (Z.of_nat length))%float
  end.

(** A reference implementation of the block matching of [SequenceMatcher]
    (Ratcliff/Obershelp), valid while the automatic junk heuristic is off,
    which is the case for a second sequence under 200 characters. It serves
    as the matcher of the concrete filters below. *)
Fixpoint common_prefix (a b : str) : nat :=
  match a, b with
  | x :: a', y :: b' => if (x =? y)%N then S (common_prefix a' b') else O
  | _, _ => O
  end.

(** The longest block of [b] that starts [a]: its position (counted from
    [j]) and size, the leftmost one among the longest. *)
Fixpoint longest_at (a : str) (j : nat) (b : str) : nat * nat :=
  match b with
  | [] => (j, O)
  | _ :: b' =>
      let k := common_prefix a b in
      let '(j', k') := longest_at a (S j) b' in
      if k' <=? k then (j, k) else (j', k')
  end.

(** [find_longest_match]: the longest common block [(i, j, k)], the one that
    starts earliest in [a] and then earliest in [b] among the longest. *)
Fixpoint find_longest_match (i : nat) (a b : str) : nat * nat * nat :=
  match a with
  | [] => (i, O, O)
  | _ :: a' =>
      let '(j, k) := longest_at a O b in
      let '(i', j', k') := find_longest_match (S i) a' b in
      if k' <=? k then (i, j, k) else (i', j', k')
  end.

(** The total size of [get_matching_blocks()]: the longest block, then the
    blocks to its left and to its right. *)
Fixpoint matching_blocks_size (fuel : nat) (a b : str) : nat :=
  match fuel with
  | O => O
  | S fuel' =>
      let '(i, j, k) := find_longest_match O a b in
      match k with
      | O => O
      | S _ =>
          matching_blocks_size fuel' (take i a) (take j b) + k
          + matching_blocks_size fuel' (drop (i + k) a) (drop (j + k) b)
      end
  end.

Definition reference_matches (a b : str) : nat :=
  matching_blocks_size (length a) a b.

End Difflib.

Import Difflib.

(** ** The filter's data *)

(** The four switches [ProfanityFilter.init] hands to [TextProcessor]. *)
Record TextProcessor := {
  processing_normalize_text : bool;
  processing_aggressive_normalize : bool;
  processing_transliterate : bool;
  processing_replace_homoglyphs : bool
}.

(** The attributes of an initialised [ProfanityFilter]. *)
Record ProfanityFilter := {
  resource_dir : str;
  text_processor : TextProcessor;
  language_files : list str;
  bad_words : gset str
}.

(** A [ProfanityFilter] object as [init] finds it and leaves it: each
    attribute is assigned ([Some]) or not yet ([None]). *)
Record instance := {
  self_resource_dir : option str;
  self_text_processor : option TextProcessor;
  self_language_files : option (list str);
  self_bad_words : option (gset str)
}.

(** An object no attribute of which is assigned. *)
Definition fresh : instance := {|
  self_resource_dir := None;
  self_text_processor := None;
  self_language_files := None;
  self_bad_words := None
|}.

(** The object whose four attributes are those of an initialised filter. *)
Definition initialised (f : ProfanityFilter) : instance := {|
  self_resource_dir := Some (resource_dir f);
  self_text_processor := Some (text_processor f);
  self_language_files := Some (language_files f);
  self_bad_words := Some (bad_words f)
|}.

(** What [filter_text] returns: [bool | str]. *)
Inductive verdict :=
  | VBool (b : bool)
  | VStr (s : str).

(** The exceptions [init] can leave with. *)
Inductive exception :=
  | NotSupportedLanguage
  | OSError.

Inductive outcome (A : Type) :=
  | Returned (a : A)
  | Raised (e : exception).
Arguments Returned {A} a.
Arguments Raised {A} e.

(** What opening and reading a word list gives: the file is absent
    ([exists()] is false), reading it fails (the error is caught and the
    language skipped), or [f.read().splitlines()] yields its lines. *)
Inductive word_file :=
  | Absent
  | Unreadable
  | Lines (words : list str).

(** The file system as [init] sees it. *)
Record FileSystem := {
  (** [Path(__file__).parent] *)
  module_dir : str;
  (** [str(path)] for each path of [dir.iterdir()]; [None] when the
      directory cannot be listed. *)
  iterdir : str -> option (list str);
  word_list : str -> word_file
}.

(** The code the filter calls that lives outside [check.py]. *)
Class Collaborators := {
  (** [TextProcessor.process_text] of a processor with the given switches *)
  process_text : TextProcessor -> str -> str;
  (** the total size of the matching blocks of [SequenceMatcher(None, a, b)] *)
  matching_characters : str -> str -> nat;
  (** [str.lower] and [str.isalpha] *)
  str_lower : str -> str;
  str_isalpha : str -> bool
}.

(** ** Concrete collaborators

    The filters of the worked examples use these. *)

(** Modelled from the spec: [TextProcessor.process_text], whose module
    ([text_processor.py]) is not among the sources, for a processor with all
    four switches off; the spec makes normalization "an identity/trim
    function" there. It is applied to such processors only. *)
Definition process_text_off (tp : TextProcessor) (text : str) : str :=
  strip text.

(** [str.lower] and [str.isalpha] on ASCII letters. *)
Definition ascii_lower (s : str) : str :=
  map (fun c => if (65 <=? c) && (c <=? 90) then c + 32 else c)%N s.

Definition ascii_isalpha (s : str) : bool :=
  match s with
  | [] => false
  | _ :: _ =>
      forallb (fun c => (65 <=? c) && (c <=? 90) || (97 <=? c) && (c <=? 122))%N s
  end.

Definition reference : Collaborators := {|
  process_text := process_text_off;
  matching_characters := reference_matches;
  str_lower := ascii_lower;
  str_isalpha := ascii_isalpha
|}.

(** Modelled from the spec: [TextProcessor.process_text] for a processor
    with basic normalization only, which the spec describes as case folding
    and whitespace trimming; the folding is that of the ASCII letters. It is
    applied to such processors only. *)
Definition process_text_basic (tp : TextProcessor) (text : str) : str :=
  ascii_lower (strip text).

Definition folding : Collaborators := {|
  process_text := process_text_basic;
  matching_characters := reference_matches;
  str_lower := ascii_lower;
  str_isalpha := ascii_isalpha
|}.

Definition basic_only : TextProcessor := {|
  processing_normalize_text := true;
  processing_aggressive_normalize := false;
  processing_transliterate := false;
  processing_replace_homoglyphs := false
|}.

(** An initialised filter with the given corpus and basic normalization
    only. *)
Definition folding_filter_with (corpus : list str) : ProfanityFilter := {|
  resource_dir := lit "/pkg/badwords/resource";
  text_processor := basic_only;
  language_files := [lit "en"];
  bad_words := list_to_set corpus
|}.

Definition switches_off : TextProcessor := {|
  processing_normalize_text := false;
  processing_aggressive_normalize := false;
  processing_transliterate := false;
  processing_replace_homoglyphs := false
|}.

(** A package directory with one word list, [en.bdw]. *)
Definition one_language : FileSystem := {|
  module_dir := lit "/pkg/badwords";
  iterdir := fun d =>
    if bool_decide (d = lit "/pkg/badwords/resource")
    then Some [lit "/pkg/badwords/resource/en.bdw"]
    else None;
  word_list := fun p =>
    if bool_decide (p = lit "/pkg/badwords/resource/en.bdw")
    then Lines [lit "badword"]
    else Absent
|}.

(** The same directory with one more word list, outside the reach of an
    alphabetic code. *)
Definition one_language_and_more : FileSystem := {|
  module_dir := module_dir one_language;
  iterdir := iterdir one_language;
  word_list := fun p =>
    if bool_decide (p = lit "/pkg/badwords/resource/../x.bdw")
    then Lines [lit "secret"]
    else word_list one_language p
|}.

(** An initialised filter with the given corpus and all switches off. *)
Definition filter_with (corpus : list str) : ProfanityFilter := {|
  resource_dir := lit "/pkg/badwords/resource";
  text_processor := switches_off;
  language_files := [lit "en"];
  bad_words := list_to_set corpus
|}.

(** ** The methods of [ProfanityFilter] *)

Section Filter.

Context {collaborators : Collaborators}.

(** Computations over the instance [self]. *)
Definition M (A : Type) : Type := ProfanityFilter -> A * ProfanityFilter.

#[local] Instance M_ret : MRet M := fun A a self => (a, self).
#[local] Instance M_bind : MBind M := fun A B k m self =>
  let '(a, self') := m self in k a self'.

(** Reading an attribute of [self]. *)
Definition attr {A : Type} (field : ProfanityFilter -> A) : M A :=
  fun self => (field self, self).

(** [self.bad_words.update(ws)] *)
Definition bad_words_update (ws : list str) : M unit :=
  fun self =>
    (tt, {| resource_dir := resource_dir self;
            text_processor := text_processor self;
            language_files := language_files self;
            bad_words := bad_words self ∪ list_to_set ws |}).

(** [dir / name] for a relative [name]. *)
Definition path_join (dir name : str) : str := dir ++ lit "/" ++ name.

(** [initialize_language_files] *)
Definition initialize_language_files (fs : FileSystem) (dir : str)
    : outcome (list str) :=
  match iterdir fs dir with
  | Some paths => Returned (map slice_m6_m4 paths)
  | None => Raised OSError
  end.

(** One round of the loop of [initialize_bad_words]. A code that is not
    alphabetic, an absent file and a file whose reading fails all leave the
    set as it is. *)
Definition load_language (fs : FileSystem) (tp : TextProcessor) (dir : str)
    (bad_words : gset str) (lang : str) : gset str :=
  let lang := strip (str_lower lang) in
  if negb (str_isalpha lang) then bad_words
  else
    let file_path := path_join dir (lang ++ lit ".bdw") in
    match word_list fs file_path with
    | Absent => bad_words
    | Unreadable => bad_words
    | Lines words =>
        let processed_words := map (process_text tp) words in
        bad_words ∪ list_to_set processed_words
    end.

(** The word list [initialize_bad_words] reads for the code [lang]. *)
Definition word_list_of (fs : FileSystem) (dir lang : str) : word_file :=
  word_list fs (path_join dir (strip (str_lower lang) ++ lit ".bdw")).

(** [w] is what the loop of [initialize_bad_words] adds for [lang]: the
    sanitized code is alphabetic, its word list can be read, and [w] is the
    processed form of one of its lines. *)
Definition loaded (fs : FileSystem) (tp : TextProcessor) (dir lang w : str)
    : Prop :=
  str_isalpha (strip (str_lower lang)) = true /\
  exists words raw,
    word_list_of fs dir lang = Lines words /\ raw ∈ words /\
    w = process_text tp raw.

(** [initialize_bad_words] *)
Definition initialize_bad_words (fs : FileSystem) (tp : TextProcessor)
    (dir : str) (language_files : list str) : gset str :=
  foldl (load_language fs tp dir) ∅ language_files.

(** [init] by its outcome alone: the initialised filter a successful call
    leaves, or the exception the call raises. [languages] is [None] or a
    list; an empty list is falsy. The method itself, statement by statement
    and with what it has assigned on [self] when it raises, is [init_self]
    below; [init_self_init] relates the two. *)
Definition init (fs : FileSystem) (languages : option (list str))
    (normalize_text aggressive_normalize transliterate replace_homoglyphs : bool)
    : outcome ProfanityFilter :=
  let dir := path_join (module_dir fs) (lit "resource") in
  let tp := {| processing_normalize_text := normalize_text;
               processing_aggressive_normalize := aggressive_normalize;
               processing_transliterate := transliterate;
               processing_replace_homoglyphs := replace_homoglyphs |} in
  match initialize_language_files fs dir with
  | Raised e => Raised e
  | Returned discovered =>
      let chosen :=
        match languages with
        | Some ((_ :: _) as requested) =>
            if forallb (fun i => bool_decide (i ∈ discovered)) requested
            then Returned requested
            else Raised NotSupportedLanguage
        | _ => Returned discovered
        end in
      match chosen with
      | Raised e => Raised e
      | Returned language_files =>
          Returned {| resource_dir := dir;
                      text_processor := tp;
                      language_files := language_files;
                      bad_words := initialize_bad_words fs tp dir language_files |}
      end
  end.

(** [init] as the method it is: it assigns [resource_dir] and
    [text_processor], then [language_files] (line 46), checks the requested
    languages (lines 48-52) and assigns [bad_words] last (line 54). An
    exception leaves on [self] what was assigned before it. *)
Definition init_self (fs : FileSystem) (languages : option (list str))
    (normalize_text aggressive_normalize transliterate replace_homoglyphs : bool)
    (self : instance) : outcome unit * instance :=
  let dir := path_join (module_dir fs) (lit "resource") in
  let tp := {| processing_normalize_text := normalize_text;
               processing_aggressive_normalize := aggressive_normalize;
               processing_transliterate := transliterate;
               processing_replace_homoglyphs := replace_homoglyphs |} in
  let finish language_files :=
    (Returned tt,
     {| self_resource_dir := Some dir;
        self_text_processor := Some tp;
        self_language_files := Some language_files;
        self_bad_words := Some (initialize_bad_words fs tp dir language_files) |}) in
  match initialize_language_files fs dir with
  | Raised e =>
      (Raised e,
       {| self_resource_dir := Some dir;
          self_text_processor := Some tp;
          self_language_files := self_language_files self;
          self_bad_words := self_bad_words self |})
  | Returned discovered =>
      match languages with
      | Some ((_ :: _) as requested) =>
          if forallb (fun i => bool_decide (i ∈ discovered)) requested
          then finish requested
          else
            (Raised NotSupportedLanguage,
             {| self_resource_dir := Some dir;
                self_text_processor := Some tp;
                self_language_files := Some discovered;
                self_bad_words := self_bad_words self |})
      | _ => finish discovered
      end
  end.

(** [add_words] *)
Definition add_words (words : list str) : M unit :=
  tp ← attr text_processor;
  let processed_words := map (process_text tp) words in
  bad_words_update processed_words.

(** [similar]: [SequenceMatcher(None, a, b).ratio()] *)
Definition similar (a b : str) : float :=
  calculate_ratio (matching_characters a b) (length a + length b).

(** What both matching branches of [filter_text] return for [word]: the
    redacted text when [replace_character] is a non-empty string, [True]
    otherwise. *)
Definition report (text : str) (replace_character : option str) (word : str)
    : verdict :=
  match replace_character with
  | Some ((_ :: _) as c) => VStr (replace word (mul c (length word)) text)
  | _ => VBool true
  end.

(** The inner loop of [filter_text], over the corpus: [Some v] when it
    returns [v], [None] when it runs to its end. *)
Fixpoint scan_bad_words (text : str) (match_threshold : float)
    (replace_character : option str) (word : str) (corpus : list str)
    : option verdict :=
  match corpus with
  | [] => None
  | bad_word :: corpus' =>
      if (match_threshold <? similar word bad_word)%float
      then Some (report text replace_character word)
      else scan_bad_words text match_threshold replace_character word corpus'
  end.

(** The outer loop of [filter_text], over the words of the processed text,
    and the [return False] after it. *)
Fixpoint scan_words (bad_words : gset str) (text : str) (match_threshold : float)
    (replace_character : option str) (words : list str) : verdict :=
  match words with
  | [] => VBool false
  | word :: words' =>
      if bool_decide (word ∈ bad_words)
      then report text replace_character word
      else if ((0 <? match_threshold) && (match_threshold <? 1))%float
      then
        match scan_bad_words text match_threshold replace_character word
                (elements bad_words) with
        | Some v => v
        | None =>
            scan_words bad_words text match_threshold replace_character words'
        end
      else scan_words bad_words text match_threshold replace_character words'
  end.

(** [if not match_threshold: match_threshold = 1]; [None] and zero are
    falsy. *)
Definition threshold_or_one (match_threshold : option float) : float :=
  match match_threshold with
  | Some t => if (t =? 0)%float then 1%float else t
  | None => 1%float
  end.

(** [filter_text] *)
Definition filter_text (text : str) (match_threshold : option float)
    (replace_character : option str) : M verdict :=
  let match_threshold := threshold_or_one match_threshold in
  tp ← attr text_processor;
  let processed_text := process_text tp text in
  let words := split processed_text in
  corpus ← attr bad_words;
  mret (scan_words corpus text match_threshold replace_character words).

(** [get_all_languages] *)
Definition get_all_languages : M (list str) := attr language_files.

(** A call a client makes on an initialised filter. *)
Inductive call :=
  | AddWords (words : list str)
  | FilterText (text : str) (match_threshold : option float)
      (replace_character : option str)
  | GetAllLanguages.

(** The instance a call leaves behind. *)
Definition perform (k : call) (self : ProfanityFilter) : ProfanityFilter :=
  match k with
  | AddWords words => snd (add_words words self)
  | FilterText text match_threshold replace_character =>
      snd (filter_text text match_threshold replace_character self)
  | GetAllLanguages => snd (get_all_languages self)
  end.

(** The words a call passes to [add_words]. *)
Definition words_of (k : call) : list str :=
  match k with
  | AddWords words => words
  | _ => []
  end.

(** The instance after a sequence of calls. *)
Definition after_calls (calls : list call) (self : ProfanityFilter)
    : ProfanityFilter :=
  foldl (fun s k => perform k s) self calls.

(** ** The matching rule, as the specification words it *)

(** A token matches when it is in the corpus or, in fuzzy mode, when its
    similarity to some corpus entry strictly exceeds the threshold. *)
Definition token_matches (corpus : gset str) (match_threshold : option float)
    (word : str) : Prop :=
  word ∈ corpus \/
  exists t, match_threshold = Some t /\
    (0 <? t)%float = true /\ (t <? 1)%float = true /\
    exists bad_word, bad_word ∈ corpus /\ (t <? similar word bad_word)%float = true.

(** The test the body of the outer loop performs on [word], for the
    threshold in force after the default is applied. *)
Definition hits (corpus : gset str) (match_threshold : float) (word : str)
    : Prop :=
  word ∈ corpus \/
  ((0 <? match_threshold) && (match_threshold <? 1))%float = true /\
  Exists (fun bad_word => (match_threshold <? similar word bad_word)%float = true)
    (elements corpus).

(** A verdict other than [False]: the text was flagged. *)
Definition flagged (v : verdict) : Prop := v <> VBool false.

(** The tokens of a text: the whitespace-delimited words of its processed
    form. *)
Definition tokens (self : ProfanityFilter) (text : str) : list str :=
  split (process_text (text_processor self) text).

End Filter.

(** * Properties *)

(** ** Floats *)

Lemma float_pos_not_zero (t : float) :
  (0 <? t)%float = true -> (t =? 0)%float = false.
Proof.
  rewrite FloatAxioms.ltb_spec, FloatAxioms.eqb_spec.
  change (Prim2SF 0%float) with (S754_zero false).
  destruct (Prim2SF t) as [[]|[]| |[] m e]; cbn; congruence.
Qed.

Lemma float_nonpos_not_pos (t : float) :
  (t <=? 0)%float = true -> (0 <? t)%float = false.
Proof.
  rewrite FloatAxioms.ltb_spec, FloatAxioms.leb_spec.
  change (Prim2SF 0%float) with (S754_zero false).
  destruct (Prim2SF t) as [[]|[]| |[] m e]; cbn; congruence.
Qed.

(** ** Strings *)

Lemma split_from_whitespace cur s :
  whitespace s ->
  split_from cur s = match cur with [] => [] | _ => [cur] end.
Proof.
  intros Hs. revert cur. induction Hs as [|c s Hc _ IH]; intros cur; cbn.
  - reflexivity.
  - rewrite Hc. destruct cur; rewrite IH; reflexivity.
Qed.

Lemma split_from_nil_inv cur s :
  split_from cur s = [] -> cur = [] /\ whitespace s.
Proof.
  revert cur. induction s as [|c s IH]; intros cur; cbn.
  - destruct cur; [split; [reflexivity | constructor] | discriminate].
  - destruct (isspace c) eqn:Hc.
    + destruct cur; [|discriminate].
      intros H. destruct (IH _ H) as [_ Hs]. split; [reflexivity|].
      constructor; assumption.
    + intros H. destruct (IH _ H) as [Hcur _].
      destruct cur; discriminate.
Qed.

(** A string has no token exactly when it is empty or all whitespace. *)
Lemma split_nil s : split s = [] <-> whitespace s.
Proof.
  split.
  - intros H. apply (split_from_nil_inv [] s H).
  - intros H. unfold split. rewrite split_from_whitespace; [reflexivity | assumption].
Qed.

Lemma split_from_spaceless cur s :
  spaceless s -> cur ++ s <> [] -> split_from cur s = [cur ++ s].
Proof.
  intros Hs. revert cur. induction Hs as [|c s Hc _ IH]; intros cur Hne; cbn.
  - rewrite app_nil_r in *. destruct cur; [congruence | reflexivity].
  - rewrite Hc, IH; rewrite <- app_assoc; [reflexivity|].
    cbn. destruct cur; discriminate.
Qed.

(** A non-empty string without whitespace is its own single token. *)
Lemma split_spaceless s : s <> [] -> spaceless s -> split s = [s].
Proof. intros Hne Hs. apply (split_from_spaceless [] s Hs Hne). Qed.

Lemma split_from_tokens cur s w :
  spaceless cur -> w ∈ split_from cur s -> w <> [] /\ spaceless w.
Proof.
  revert cur. induction s as [|c s IH]; intros cur Hcur; cbn.
  - destruct cur as [|a cur]; [intros H; inversion H|].
    intros ->%list_elem_of_singleton. split; [discriminate | assumption].
  - destruct (isspace c) eqn:Hc.
    + destruct cur as [|a cur].
      * apply IH; constructor.
      * intros [->|H]%elem_of_cons; [split; [discriminate | assumption]|].
        apply (IH []); [constructor | assumption].
    + apply IH. apply Forall_app; split; [assumption|].
      constructor; [assumption | constructor].
Qed.

(** The tokens [split] yields are non-empty and free of whitespace. *)
Lemma split_tokens s w : w ∈ split s -> w <> [] /\ spaceless w.
Proof. apply split_from_tokens. constructor. Qed.

(** The converse of [split_spaceless]. *)
Lemma split_single_inv s : split s = [s] -> s <> [] /\ spaceless s.
Proof.
  intros H. apply (split_tokens s). rewrite H. apply list_elem_of_here.
Qed.

Lemma startswith_app old rest : startswith old (old ++ rest) = true.
Proof.
  induction old as [|a old IH]; cbn; [reflexivity|].
  rewrite N.eqb_refl. exact IH.
Qed.

Lemma startswith_inv old s :
  startswith old s = true -> exists rest, s = old ++ rest.
Proof.
  revert s. induction old as [|a old IH]; intros s; cbn.
  - exists s. reflexivity.
  - destruct s as [|b s]; [discriminate|].
    intros [Hab H]%andb_prop. apply N.eqb_eq in Hab as ->.
    destruct (IH _ H) as [rest ->]. exists rest. reflexivity.
Qed.

Lemma replace_from_skip old new pre rest :
  replace_from old new (length pre) (pre ++ rest) = replace_from old new 0 rest.
Proof.
  induction pre as [|c pre IH]; cbn; [reflexivity | exact IH].
Qed.

Lemma replace_from_occurrence old new rest :
  old <> [] ->
  replace_from old new 0 (old ++ rest) = new ++ replace_from old new 0 rest.
Proof.
  destruct old as [|a old]; [congruence | intros _].
  change ((a :: old) ++ rest) with (a :: (old ++ rest)).
  unfold replace_from at 1; fold replace_from.
  change (a :: (old ++ rest)) with ((a :: old) ++ rest).
  rewrite startswith_app. cbn [length]. rewrite Nat.sub_1_r. cbn [Nat.pred].
  rewrite replace_from_skip. reflexivity.
Qed.

Lemma replace_from_keep old new c s :
  startswith old (c :: s) = false ->
  replace_from old new 0 (c :: s) = c :: replace_from old new 0 s.
Proof.
  intros H. unfold replace_from at 1; fold replace_from. rewrite H. reflexivity.
Qed.

Lemma replace_from_Replaced old new n :
  old <> [] ->
  forall s, length s <= n -> Replaced old new s (replace_from old new 0 s).
Proof.
  intros Hold. induction n as [|n IH]; intros s Hn.
  - destruct s; [constructor | cbn in Hn; lia].
  - destruct s as [|c s]; [constructor|].
    destruct (startswith old (c :: s)) eqn:Hp.
    + destruct (startswith_inv _ _ Hp) as [rest Hrest]. rewrite Hrest.
      rewrite replace_from_occurrence by assumption.
      constructor. apply IH.
      apply (f_equal length) in Hrest. rewrite length_app in Hrest.
      destruct old; [congruence|]. cbn in Hrest, Hn. lia.
    + rewrite replace_from_keep by assumption.
      constructor; [assumption|]. apply IH. cbn in Hn. lia.
Qed.

(** [replace] replaces every occurrence met from the left, and nothing
    else. *)
Lemma replace_Replaced old new s :
  old <> [] -> Replaced old new s (replace old new s).
Proof.
  intros Hold. destruct old as [|a old]; [congruence|].
  apply (replace_from_Replaced _ _ (length s)); [assumption | lia].
Qed.

Lemma Replaced_replace old new s r :
  old <> [] -> Replaced old new s r -> r = replace old new s.
Proof.
  intros Hold H.
  assert (Hr : replace old new = replace_from old new 0)
    by (destruct old; [congruence | reflexivity]).
  rewrite Hr. clear Hr.
  induction H as [|rest rest' _ IH|c s s' Hp _ IH].
  - reflexivity.
  - rewrite replace_from_occurrence by assumption. congruence.
  - rewrite replace_from_keep by assumption. congruence.
Qed.

Lemma startswith_occurs old s : startswith old s = true -> occurs old s.
Proof.
  intros H. destruct (startswith_inv _ _ H) as [rest ->].
  exists [], rest. reflexivity.
Qed.

Lemma occurs_cons old c s : occurs old s -> occurs old (c :: s).
Proof. intros (pre & post & ->). exists (c :: pre), post. reflexivity. Qed.

Lemma occurs_inv old c s :
  occurs old (c :: s) -> startswith old (c :: s) = true \/ occurs old s.
Proof.
  intros ([|a pre] & post & H); cbn in H.
  - left. rewrite H. apply startswith_app.
  - right. injection H as _ ->. exists pre, post. reflexivity.
Qed.

Lemma occurs_nil old : occurs old [] -> old = [].
Proof.
  intros (pre & post & H). symmetry in H.
  apply app_eq_nil in H as [_ H]. apply app_eq_nil in H as [H _]. exact H.
Qed.

Lemma mul_concat (s : str) n : mul s n = concat (replicate n s).
Proof. induction n as [|n IH]; cbn; [reflexivity|]. rewrite IH. reflexivity. Qed.

Lemma Replaced_Redacted old new s r :
  old <> [] -> Replaced old new s r -> Redacted old new s r.
Proof.
  intros Hold H. induction H as [|rest rest' _ IH|c s s' Hp _ IH].
  - apply Redacted_none. intros Ho%occurs_nil. contradiction.
  - apply (Redacted_first old new [] rest (old ++ rest) rest'); [|exact IH].
    split; [reflexivity|]. intros pre' rest'' _. cbn. lia.
  - inversion IH as [s0 Hno|pre rest s0 r [Heq Hmin] Hrest]; subst.
    + apply Redacted_none. intros [Hp'|Ho]%occurs_inv; [congruence | contradiction].
    + apply (Redacted_first old new (c :: pre) rest
               (c :: pre ++ old ++ rest) r); [|exact Hrest].
      split; [reflexivity|]. intros [|a pre'] rest' Hocc; cbn in Hocc.
      * exfalso. rewrite Hocc, startswith_app in Hp. discriminate.
      * injection Hocc as _ Hocc. apply Hmin in Hocc. cbn. lia.
Qed.

(** [replace] meets the meaning of replacement. *)
Lemma replace_Redacted old new s :
  old <> [] -> Redacted old new s (replace old new s).
Proof.
  intros Hold. apply Replaced_Redacted; [assumption|].
  apply replace_Replaced. assumption.
Qed.

(** That meaning leaves one result only. *)
Lemma Redacted_unique old new s r1 r2 :
  Redacted old new s r1 -> Redacted old new s r2 -> r1 = r2.
Proof.
  intros H1. revert r2.
  induction H1 as [s Hno|pre rest s r [Heq Hmin] _ IH]; intros r2 H2.
  - inversion H2 as [|pre' rest' s0 r' [Heq' _] _]; subst; [reflexivity|].
    exfalso. apply Hno. exists pre', rest'. reflexivity.
  - inversion H2 as [s0 Hno|pre' rest' s0 r' [Heq' Hmin'] Hr']; subst.
    + exfalso. apply Hno. exists pre, rest. reflexivity.
    + assert (Hlen : length pre = length pre').
      { apply Nat.le_antisymm; [apply (Hmin pre' rest') | apply (Hmin' pre rest)];
          congruence. }
      destruct (app_inj_1 _ _ _ _ Hlen Heq') as [-> Hrest].
      apply app_inv_head in Hrest. subst rest'.
      f_equal. f_equal. apply IH. exact Hr'.
Qed.

Lemma Exists_weaken {A : Type} (P Q : A -> Prop) (l : list A) :
  (forall x, P x -> Q x) -> Exists P l -> Exists Q l.
Proof. intros HPQ H. induction H; [constructor 1; auto | constructor 2; auto]. Qed.

Lemma none_or_some {A : Type} (P : A -> Prop) (l : list A) :
  (forall x, P x \/ ~ P x) -> Forall (fun x => ~ P x) l \/ Exists P l.
Proof.
  intros Hdec. induction l as [|a l [IH|IH]].
  - left. constructor.
  - destruct (Hdec a); [right; constructor 1 | left; constructor]; assumption.
  - right. constructor 2. assumption.
Qed.

Lemma first_satisfying {A : Type} (P : A -> Prop) (l : list A) :
  (forall x, P x \/ ~ P x) ->
  Exists P l ->
  exists before x rest,
    l = before ++ x :: rest /\ Forall (fun y => ~ P y) before /\ P x.
Proof.
  intros Hdec. induction l as [|a l IH]; intros H.
  - inversion H.
  - destruct (Hdec a) as [Ha|Ha].
    + exists [], a, l. repeat split; [constructor | assumption].
    + destruct IH as (before & x & rest & -> & Hb & Hx).
      { inversion H; subst; [contradiction | assumption]. }
      exists (a :: before), x, rest.
      repeat split; [constructor; assumption | assumption].
Qed.

(** ** The loops of [filter_text] *)

Section FilterFacts.

Context {collaborators : Collaborators}.

Implicit Types (self : ProfanityFilter) (corpus : gset str).
Implicit Types (text word : str) (t : option float) (c : option str).

Lemma report_flagged text c word : flagged (report text c word).
Proof. unfold flagged, report. destruct c as [[|]|]; discriminate. Qed.

Lemma report_redacts text (c : str) word :
  c <> [] -> report text (Some c) word = VStr (replace word (mul c (length word)) text).
Proof. destruct c; [congruence | reflexivity]. Qed.

Lemma scan_bad_words_found text (x : float) c word (l : list str) :
  Exists (fun bad_word => (x <? similar word bad_word)%float = true) l ->
  scan_bad_words text x c word l = Some (report text c word).
Proof.
  induction l as [|b l IH]; intros H; [inversion H|]. cbn.
  destruct (x <? similar word b)%float eqn:Hb; [reflexivity|].
  apply IH. inversion H; subst; [congruence | assumption].
Qed.

Lemma scan_bad_words_none text (x : float) c word (l : list str) :
  ~ Exists (fun bad_word => (x <? similar word bad_word)%float = true) l ->
  scan_bad_words text x c word l = None.
Proof.
  induction l as [|b l IH]; intros H; [reflexivity|]. cbn.
  destruct (x <? similar word b)%float eqn:Hb.
  - exfalso. apply H. constructor. assumption.
  - apply IH. intros H'. apply H. constructor 2. assumption.
Qed.

Lemma hits_dec corpus (x : float) word :
  hits corpus x word \/ ~ hits corpus x word.
Proof.
  unfold hits.
  destruct (decide (word ∈ corpus)) as [|Hn]; [left; left; assumption|].
  destruct ((0 <? x) && (x <? 1))%float eqn:Hg.
  - destruct (decide (Exists
      (fun bad_word => (x <? similar word bad_word)%float = true)
      (elements corpus))) as [He|He].
    + left. right. split; [reflexivity | assumption].
    + right. intros [|[_ ?]]; contradiction.
  - right. intros [|[? _]]; [contradiction | discriminate].
Qed.

(** The outer loop runs to its end, and [filter_text] returns [False], when
    no word passes the test. *)
Lemma scan_words_miss corpus text (x : float) c (words : list str) :
  Forall (fun w => ~ hits corpus x w) words ->
  scan_words corpus text x c words = VBool false.
Proof.
  induction 1 as [|w words Hw _ IH]; cbn; [reflexivity|].
  rewrite bool_decide_eq_false_2 by (intros Hin; apply Hw; left; assumption).
  destruct ((0 <? x) && (x <? 1))%float eqn:Hg; [|assumption].
  rewrite scan_bad_words_none; [assumption|].
  intros He. apply Hw. right. split; assumption.
Qed.

(** The outer loop returns at the first word that passes the test. *)
Lemma scan_words_hit corpus text (x : float) c (before rest : list str) word :
  Forall (fun w => ~ hits corpus x w) before ->
  hits corpus x word ->
  scan_words corpus text x c (before ++ word :: rest) = report text c word.
Proof.
  intros Hb Hw. induction Hb as [|w before Hn _ IH]; cbn.
  - destruct (decide (word ∈ corpus)) as [Hin|Hin].
    + rewrite bool_decide_eq_true_2 by assumption. reflexivity.
    + rewrite bool_decide_eq_false_2 by assumption.
      destruct Hw as [|[Hg He]]; [contradiction|].
      cbn in Hg. rewrite Hg. rewrite scan_bad_words_found by assumption.
      reflexivity.
  - rewrite bool_decide_eq_false_2 by (intros Hin; apply Hn; left; assumption).
    destruct ((0 <? x) && (x <? 1))%float eqn:Hg; [|assumption].
    rewrite scan_bad_words_none; [assumption|].
    intros He. apply Hn. right. split; assumption.
Qed.

(** The loop flags the text exactly when some word passes the test. *)
Lemma scan_words_flagged corpus text (x : float) c (words : list str) :
  flagged (scan_words corpus text x c words) <-> Exists (hits corpus x) words.
Proof.
  split.
  - intros Hf.
    destruct (none_or_some _ words (hits_dec corpus x)) as [Hn|]; [|assumption].
    exfalso. apply Hf. apply scan_words_miss. assumption.
  - intros He.
    destruct (first_satisfying _ _ (hits_dec corpus x) He)
      as (before & w & rest & -> & Hb & Hw).
    rewrite scan_words_hit by assumption. apply report_flagged.
Qed.

(** The specification's matching rule is the loop's test under the
    threshold in force. *)
Lemma token_matches_hits corpus t word :
  token_matches corpus t word <-> hits corpus (threshold_or_one t) word.
Proof.
  unfold token_matches, hits. split.
  - intros [Hin|(x & -> & H0 & H1 & b & Hb & Hs)]; [left; assumption|].
    right. cbn. rewrite (float_pos_not_zero _ H0), H0, H1.
    split; [reflexivity|]. apply Exists_exists. exists b.
    split; [apply elem_of_elements|]; assumption.
  - intros [Hin|[Hg He]]; [left; assumption|]. right.
    apply andb_prop in Hg as [H0 H1].
    apply Exists_exists in He as (b & Hb%elem_of_elements & Hs).
    destruct t as [x|]; [|discriminate]. cbn in *.
    destruct (x =? 0)%float; [discriminate|].
    exists x. repeat split; try assumption. exists b. split; assumption.
Qed.

Lemma filter_text_value text t c self :
  filter_text text t c self
  = (scan_words (bad_words self) text (threshold_or_one t) c (tokens self text),
     self).
Proof. reflexivity. Qed.

Lemma add_words_value (words : list str) self :
  add_words words self
  = (tt, {| resource_dir := resource_dir self;
            text_processor := text_processor self;
            language_files := language_files self;
            bad_words :=
              bad_words self
              ∪ list_to_set (map (process_text (text_processor self)) words) |}).
Proof. reflexivity. Qed.

Lemma bad_words_add_words (words : list str) self :
  bad_words (snd (add_words words self))
  = bad_words self ∪ list_to_set (map (process_text (text_processor self)) words).
Proof. reflexivity. Qed.

Lemma tokens_add_words (words : list str) self text :
  tokens (snd (add_words words self)) text = tokens self text.
Proof. reflexivity. Qed.

Lemma hits_mono corpus corpus' (x : float) word :
  corpus ⊆ corpus' -> hits corpus x word -> hits corpus' x word.
Proof.
  intros Hsub [Hin|[Hg He]]; [left; apply Hsub; assumption|].
  right. split; [assumption|].
  apply Exists_exists in He as (b & Hb%elem_of_elements & Hs).
  apply Exists_exists. exists b. split; [|assumption].
  apply elem_of_elements, Hsub, Hb.
Qed.

Lemma load_language_grows fs tp dir corpus lang :
  corpus ⊆ load_language fs tp dir corpus lang.
Proof.
  unfold load_language.
  destruct (negb _); [reflexivity|].
  destruct (word_list fs _); [reflexivity | reflexivity | apply union_subseteq_l].
Qed.

Lemma perform_grows (k : call) self :
  bad_words self ⊆ bad_words (perform k self).
Proof.
  destruct k as [words|text t c|]; cbn.
  - apply union_subseteq_l.
  - reflexivity.
  - reflexivity.
Qed.

End FilterFacts.

(** ** The filter *)

Section FilterProperties.

Context {collaborators : Collaborators}.

Implicit Types (self : ProfanityFilter) (corpus : gset str).
Implicit Types (text word : str) (t : option float) (c : option str).

Lemma filter_text_flagged text t c self :
  flagged (fst (filter_text text t c self))
  <-> Exists (token_matches (bad_words self) t) (tokens self text).
Proof.
  rewrite filter_text_value. cbn [fst]. rewrite scan_words_flagged.
  split; apply Exists_weaken; intros w; apply token_matches_hits.
Qed.

Lemma scan_words_exact corpus text (x y : float) c (words : list str) :
  ((0 <? x) && (x <? 1))%float = false ->
  ((0 <? y) && (y <? 1))%float = false ->
  scan_words corpus text x c words = scan_words corpus text y c words.
Proof.
  intros Hx Hy. induction words as [|w words IH]; cbn; [reflexivity|].
  rewrite Hx, Hy, IH. reflexivity.
Qed.

Lemma threshold_or_one_nonpositive (x : float) :
  (x <=? 0)%float = true ->
  ((0 <? threshold_or_one (Some x)) && (threshold_or_one (Some x) <? 1))%float
  = false.
Proof.
  intros Hx. cbn. destruct (x =? 0)%float; [reflexivity|].
  rewrite (float_nonpos_not_pos _ Hx). reflexivity.
Qed.

Lemma exact_only_matches corpus t word :
  (forall x, t = Some x -> ((0 <? x) && (x <? 1))%float = false) ->
  token_matches corpus t word <-> word ∈ corpus.
Proof.
  intros Ht. split; [|left; assumption].
  intros [|(x & Hx & H0 & H1 & _)]; [assumption|].
  specialize (Ht x Hx). rewrite H0, H1 in Ht. discriminate.
Qed.

(** C1. When some token of the processed text matches the corpus (exactly,
    or fuzzily for a threshold strictly between 0 and 1), [filter_text]
    answers for the first such token. Called with a non-empty
    [replace_character] it returns a string: the original text in which
    every occurrence of that token, taken from the left, is replaced by
    [len(token)] copies of [replace_character] joined together; the
    replacement and the occurrences are stated with the library's
    [replicate], [concat] and [++], not with the functions of the model.
    Called without a [replace_character] (or with the empty string, which is
    falsy) it returns [True]. *)
Theorem filter_text_reports_first_match self text t :
  Exists (token_matches (bad_words self) t) (tokens self text) ->
  exists before word rest,
    tokens self text = before ++ word :: rest /\
    Forall (fun w => ~ token_matches (bad_words self) t w) before /\
    token_matches (bad_words self) t word /\
    (forall r : str, r <> [] ->
       exists redacted,
         fst (filter_text text t (Some r) self) = VStr redacted /\
         Redacted word (concat (replicate (length word) r)) text redacted) /\
    fst (filter_text text t None self) = VBool true /\
    fst (filter_text text t (Some []) self) = VBool true.
Proof.
  intros He.
  assert (Hdec : forall w, token_matches (bad_words self) t w
                           \/ ~ token_matches (bad_words self) t w).
  { intros w. destruct (hits_dec (bad_words self) (threshold_or_one t) w) as [Hh|Hh];
      [left | right]; rewrite token_matches_hits; assumption. }
  destruct (first_satisfying _ _ Hdec He) as (before & word & rest & Htok & Hb & Hw).
  exists before, word, rest. split; [assumption|]. split; [assumption|].
  split; [assumption|].
  assert (Hscan : forall c, fst (filter_text text t c self) = report text c word).
  { intros c. rewrite filter_text_value. cbn [fst]. rewrite Htok.
    apply scan_words_hit.
    - eapply Forall_impl; [exact Hb|]. intros w Hn Hh. apply Hn.
      apply token_matches_hits. assumption.
    - apply token_matches_hits. assumption. }
  assert (Hword : word <> []).
  { apply (split_tokens (process_text (text_processor self) text)).
    fold (tokens self text). rewrite Htok.
    apply elem_of_app. right. apply list_elem_of_here. }
  split; [|split; apply Hscan].
  intros r Hr. exists (replace word (mul r (length word)) text). split.
  - rewrite Hscan. apply report_redacts. assumption.
  - rewrite <- mul_concat. apply replace_Redacted. assumption.
Qed.

Lemma similar_token (word bad_word : str) :
  word <> [] ->
  similar word bad_word
  = (2 * SF2Prim (binary_normalize prec emax
                    (Z.of_nat (matching_characters word bad_word)) 0 false)
     / SF2Prim (binary_normalize prec emax
                  (Z.of_nat (length word + length bad_word)) 0 false))%float.
Proof. destruct word; [congruence | reflexivity]. Qed.

(** C2. With the threshold unset or equal to 1, [filter_text] flags a text
    exactly when one of its tokens is a member of the corpus, whatever the
    similarity of the others to a corpus entry. With a threshold [x]
    strictly between 0 and 1 it flags the text exactly when a token is a
    member of the corpus or has, with some corpus entry, a ratio strictly
    above [x]; the ratio is written out with the floating-point operations
    themselves: twice the number of matching characters, divided by the sum
    of the two lengths, both integers converted to the nearest float. *)
Theorem filter_text_matching_rule self text t c :
  (t = None \/ t = Some 1%float ->
   (flagged (fst (filter_text text t c self))
    <-> exists word, word ∈ tokens self text /\ word ∈ bad_words self))
  /\
  (forall x : float,
     t = Some x -> (0 <? x)%float = true -> (x <? 1)%float = true ->
     (flagged (fst (filter_text text t c self))
      <-> exists word, word ∈ tokens self text /\
            (word ∈ bad_words self \/
             exists bad_word, bad_word ∈ bad_words self /\
               (x <? 2 * SF2Prim (binary_normalize prec emax
                                    (Z.of_nat (matching_characters word bad_word))
                                    0 false)
                     / SF2Prim (binary_normalize prec emax
                                  (Z.of_nat (length word + length bad_word))
                                  0 false))%float = true))).
Proof.
  split.
  - intros Ht. rewrite filter_text_flagged, Exists_exists.
    assert (Hx : forall x, t = Some x -> ((0 <? x) && (x <? 1))%float = false).
    { intros x Hx. destruct Ht as [->| ->]; [discriminate|].
      injection Hx as <-. reflexivity. }
    split; intros (w & Hw & Hm); exists w; (split; [exact Hw|]);
      apply (exact_only_matches _ _ _ Hx); assumption.
  - intros x -> H0 H1. rewrite filter_text_flagged, Exists_exists.
    split; intros (w & Hw & Hm); exists w; (split; [exact Hw|]);
      assert (Hne : w <> []) by apply (split_tokens _ _ Hw).
    + destruct Hm as [|(y & [= <-] & _ & _ & b & Hb & Hs)]; [left; assumption|].
      right. exists b. split; [assumption|].
      rewrite <- (similar_token w b Hne). exact Hs.
    + destruct Hm as [|(b & Hb & Hs)]; [left; assumption|].
      right. exists x. repeat split; try assumption. exists b.
      split; [assumption|]. rewrite (similar_token w b Hne). exact Hs.
Qed.

(** C3, as the code has it. Once [add_words([w])] has run, [filter_text(w)]
    returns [True] for every [w] whose processed form is a single token
    (non-empty and without whitespace); and for any [w], a text that was
    flagged before the call is flagged after it, for every threshold and
    replacement character. *)
Theorem add_words_monotone self (w : str) :
  (process_text (text_processor self) w <> [] ->
   spaceless (process_text (text_processor self) w) ->
   fst (filter_text w None None (snd (add_words [w] self))) = VBool true /\
   forall t c, flagged (fst (filter_text w t c (snd (add_words [w] self)))))
  /\
  (forall (v : str) t c,
     flagged (fst (filter_text v t c self)) ->
     flagged (fst (filter_text v t c (snd (add_words [w] self))))).
Proof.
  split.
  - intros Hne Hs.
    assert (Htok : tokens (snd (add_words [w] self)) w
                   = [] ++ process_text (text_processor self) w :: []).
    { rewrite tokens_add_words. apply split_spaceless; assumption. }
    assert (Hin : forall x, hits (bad_words (snd (add_words [w] self))) x
                              (process_text (text_processor self) w)).
    { intros x. left. rewrite bad_words_add_words. cbn. set_solver. }
    assert (Hscan : forall t c,
      fst (filter_text w t c (snd (add_words [w] self)))
      = report w c (process_text (text_processor self) w)).
    { intros t c. rewrite filter_text_value. cbn [fst]. rewrite Htok.
      apply scan_words_hit; [constructor | apply Hin]. }
    split.
    + apply Hscan.
    + intros t c. rewrite Hscan. apply report_flagged.
  - intros v t c. rewrite !filter_text_flagged, tokens_add_words.
    apply Exists_weaken. intros word. rewrite !token_matches_hits.
    apply hits_mono. rewrite bad_words_add_words. apply union_subseteq_l.
Qed.

Lemma forallb_known (discovered requested : list str) :
  forallb (fun i => bool_decide (i ∈ discovered)) requested = true
  <-> Forall (fun i => i ∈ discovered) requested.
Proof.
  induction requested as [|i l IH]; cbn.
  - split; [constructor | reflexivity].
  - rewrite andb_true_iff, bool_decide_eq_true, IH, Forall_cons. reflexivity.
Qed.

(** The outcome [init] describes is that of the method, and the filter it
    returns is what the method leaves on [self]. *)
Lemma init_self_init fs languages (n a tr h : bool) (self : instance) :
  fst (init_self fs languages n a tr h self)
  = match init fs languages n a tr h with
    | Returned _ => Returned tt
    | Raised e => Raised e
    end
  /\
  forall f, init fs languages n a tr h = Returned f ->
    snd (init_self fs languages n a tr h self) = initialised f.
Proof.
  unfold init_self, init.
  destruct (initialize_language_files fs _) as [discovered|e];
    [|split; [reflexivity | discriminate]].
  destruct languages as [[|i l]|].
  - split; [reflexivity|]. intros f [= <-]. reflexivity.
  - destruct (forallb _ (i :: l)); [|split; [reflexivity | discriminate]].
    split; [reflexivity|]. intros f [= <-]. reflexivity.
  - split; [reflexivity|]. intros f [= <-]. reflexivity.
Qed.

(** C4, as the code has it. Where the resource directory can be listed,
    [init] with a non-empty language list raises [NotSupportedLanguage] as
    soon as one requested code is not among the discovered ones. It then
    builds no corpus ([bad_words] is left as it was, unassigned on a fresh
    object), but it has already assigned the resource directory, the
    processor and the whole discovered list as [language_files]. If every
    requested code is discovered, [init] returns and leaves a filter whose
    languages are exactly the requested list and whose corpus is loaded from
    that list. With no list, or with the empty list, it leaves a filter with
    every discovered language and the corpus loaded from them. *)
Theorem init_language_list fs (n a tr h : bool) (discovered requested : list str)
    (self : instance) :
  initialize_language_files fs (path_join (module_dir fs) (lit "resource"))
  = Returned discovered ->
  requested <> [] ->
  (Exists (fun i => i ∉ discovered) requested ->
   exists left,
     init_self fs (Some requested) n a tr h self
     = (Raised NotSupportedLanguage, left) /\
     self_bad_words left = self_bad_words self /\
     self_language_files left = Some discovered /\
     self_text_processor left
     = Some {| processing_normalize_text := n;
               processing_aggressive_normalize := a;
               processing_transliterate := tr;
               processing_replace_homoglyphs := h |} /\
     self_resource_dir left = Some (path_join (module_dir fs) (lit "resource")))
  /\
  (Forall (fun i => i ∈ discovered) requested ->
   exists f,
     init_self fs (Some requested) n a tr h self = (Returned tt, initialised f) /\
     language_files f = requested /\
     fst (get_all_languages f) = requested /\
     bad_words f
     = initialize_bad_words fs (text_processor f) (resource_dir f) requested /\
     text_processor f
     = {| processing_normalize_text := n;
          processing_aggressive_normalize := a;
          processing_transliterate := tr;
          processing_replace_homoglyphs := h |} /\
     resource_dir f = path_join (module_dir fs) (lit "resource"))
  /\
  (forall languages, languages = None \/ languages = Some [] ->
   exists f,
     init_self fs languages n a tr h self = (Returned tt, initialised f) /\
     language_files f = discovered /\
     fst (get_all_languages f) = discovered /\
     bad_words f
     = initialize_bad_words fs (text_processor f) (resource_dir f) discovered /\
     text_processor f
     = {| processing_normalize_text := n;
          processing_aggressive_normalize := a;
          processing_transliterate := tr;
          processing_replace_homoglyphs := h |} /\
     resource_dir f = path_join (module_dir fs) (lit "resource")).
Proof.
  intros Hd Hne. unfold init_self. rewrite Hd.
  destruct requested as [|i l]; [congruence|].
  split; [|split].
  - intros He.
    destruct (forallb _ (i :: l)) eqn:Hall.
    + apply forallb_known in Hall. exfalso.
      apply Exists_exists in He as (j & Hj & Hnot).
      rewrite Forall_forall in Hall. apply Hnot, Hall, Hj.
    + eexists. split; [reflexivity|]. repeat split.
  - intros Hall. apply forallb_known in Hall. rewrite Hall.
    eexists {| resource_dir := _; text_processor := _;
               language_files := _; bad_words := _ |}.
    split; [reflexivity|]. repeat split.
  - intros languages Hl.
    eexists {| resource_dir := _; text_processor := _;
               language_files := _; bad_words := _ |}.
    split; [destruct Hl as [-> | ->]; reflexivity|]. repeat split.
Qed.

(** C5. [filter_text] is total: it returns a verdict for every text,
    threshold and replacement character, and leaves with no exception; when
    no token matches the corpus, the verdict is the boolean [False], never a
    string. *)
Theorem filter_text_no_match self text t c :
  (exists v, filter_text text t c self = (v, self)) /\
  (Forall (fun w => ~ token_matches (bad_words self) t w) (tokens self text) ->
   fst (filter_text text t c self) = VBool false).
Proof.
  split.
  - eexists. apply filter_text_value.
  - intros Hn. rewrite filter_text_value. cbn [fst]. apply scan_words_miss.
    eapply Forall_impl; [exact Hn|]. intros w Hw Hh. apply Hw.
    apply token_matches_hits. assumption.
Qed.

(** C6. A threshold that is zero or negative gives what the unset threshold
    gives: the fuzzy branch is off, and a text is flagged exactly when one of
    its tokens is a member of the corpus. *)
Theorem filter_text_nonpositive_threshold self text (x : float) c :
  (x <=? 0)%float = true ->
  filter_text text (Some x) c self = filter_text text None c self /\
  (flagged (fst (filter_text text (Some x) c self))
   <-> exists word, word ∈ tokens self text /\ word ∈ bad_words self).
Proof.
  intros Hx. split.
  - rewrite !filter_text_value. f_equal.
    apply scan_words_exact; [apply threshold_or_one_nonpositive, Hx | reflexivity].
  - rewrite filter_text_flagged, Exists_exists.
    assert (He : forall y, Some x = Some y -> ((0 <? y) && (y <? 1))%float = false).
    { intros y [= <-]. rewrite (float_nonpos_not_pos _ Hx). reflexivity. }
    split; intros (w & Hw & Hm); exists w; (split; [exact Hw|]);
      apply (exact_only_matches _ _ _ He); assumption.
Qed.

(** C7. The corpus never shrinks. [add_words] adds the processed form of
    each word and removes nothing; every entry present in the corpus is
    still present after any sequence of calls of the filter's methods;
    loading a language at initialisation removes nothing either; and adding
    words that are already there, or the same words twice, changes
    nothing. *)
Theorem corpus_never_shrinks self (words : list str) (calls : list call) :
  bad_words (snd (add_words words self))
  = bad_words self ∪ list_to_set (map (process_text (text_processor self)) words)
  /\ bad_words self ⊆ bad_words (after_calls calls self)
  /\ (forall fs tp dir corpus lang, corpus ⊆ load_language fs tp dir corpus lang)
  /\ snd (add_words words (snd (add_words words self))) = snd (add_words words self)
  /\ snd (add_words (words ++ words) self) = snd (add_words words self)
  /\ (Forall (fun w => process_text (text_processor self) w ∈ bad_words self) words ->
      bad_words (snd (add_words words self)) = bad_words self).
Proof.
  split; [reflexivity|]. split; [|split; [|split; [|split]]].
  - revert self. induction calls as [|k calls IH]; intros self; cbn.
    + reflexivity.
    + etransitivity; [apply (perform_grows k)|]. apply IH.
  - intros. apply load_language_grows.
  - rewrite !add_words_value. cbn [snd resource_dir text_processor
      language_files bad_words]. f_equal.
    rewrite <- (assoc_L (∪)), (idemp_L (∪)). reflexivity.
  - rewrite !add_words_value. cbn [snd]. f_equal.
    rewrite map_app, list_to_set_app_L, (idemp_L (∪)). reflexivity.
  - intros Hall. rewrite bad_words_add_words.
    rewrite (comm_L (∪)). apply subseteq_union_1_L.
    intros w' Hw'. apply elem_of_list_to_set in Hw'.
    apply list_elem_of_fmap in Hw' as (w & -> & Hw).
    rewrite Forall_forall in Hall. apply Hall, Hw.
Qed.

(** C9. [filter_text] writes no attribute of the instance: the corpus, the
    language list and the processor's switches are after the call what they
    were before it. *)
Theorem filter_text_frame self text t c :
  snd (filter_text text t c self) = self /\
  bad_words (snd (filter_text text t c self)) = bad_words self /\
  language_files (snd (filter_text text t c self)) = language_files self /\
  text_processor (snd (filter_text text t c self)) = text_processor self.
Proof. rewrite filter_text_value. repeat split. Qed.

(** C10. A text whose processed form is empty or all whitespace has no
    token, and [filter_text] returns [False] for it, whatever the threshold
    and the replacement character. *)
Theorem filter_text_no_tokens self text t c :
  whitespace (process_text (text_processor self) text) ->
  tokens self text = [] /\ fst (filter_text text t c self) = VBool false.
Proof.
  intros Hw. apply split_nil in Hw.
  split; [exact Hw|].
  rewrite filter_text_value. cbn [fst]. unfold tokens. rewrite Hw. reflexivity.
Qed.

End FilterProperties.

(** ** Further properties of the strings and floats *)

Lemma SF_le_lt_trans (a b c : spec_float) :
  SFleb a b = true -> SFltb b c = true -> SFltb a c = true.
Proof.
  unfold SFleb, SFltb.
  destruct a as [[]|[]| |[] m1 e1], b as [[]|[]| |[] m2 e2],
    c as [[]|[]| |[] m3 e3];
    cbn; try congruence;
    repeat match goal with
    | |- context [(?x ?= ?y)%Z] => destruct (Z.compare_spec x y)
    | |- context [PosDef.Pos.compare_cont Eq ?x ?y] =>
        change (PosDef.Pos.compare_cont Eq x y) with (Pos.compare x y);
        destruct (Pos.compare_spec x y)
    end; cbn; try congruence; try lia.
Qed.

Lemma float_le_lt_trans (a b c : float) :
  (a <=? b)%float = true -> (b <? c)%float = true -> (a <? c)%float = true.
Proof.
  rewrite FloatAxioms.leb_spec, !FloatAxioms.ltb_spec. apply SF_le_lt_trans.
Qed.

Lemma length_mul (s : str) n : length (mul s n) = n * length s.
Proof. induction n as [|n IH]; cbn; [reflexivity|]. rewrite length_app, IH. lia. Qed.

Lemma Replaced_length old new s r :
  length new = length old -> Replaced old new s r -> length r = length s.
Proof.
  intros Hl H. induction H as [|rest rest' _ IH|c s s' _ _ IH]; cbn.
  - reflexivity.
  - rewrite !length_app. lia.
  - lia.
Qed.

(** A string in which [old] does not occur is left as it is. *)
Lemma replace_absent old new s :
  old <> [] -> ~ occurs old s -> replace old new s = s.
Proof.
  intros Hold Hn.
  assert (Hr : replace old new = replace_from old new 0)
    by (destruct old; [congruence | reflexivity]).
  rewrite Hr. clear Hr.
  induction s as [|c s IH]; [reflexivity|].
  rewrite replace_from_keep.
  - f_equal. apply IH. intros H. apply Hn, occurs_cons, H.
  - destruct (startswith old (c :: s)) eqn:Hp; [|reflexivity].
    exfalso. apply Hn, startswith_occurs, Hp.
Qed.

Lemma startswith_head (p s : str) a :
  startswith p (a :: s) = true -> p = [] \/ a ∈ p.
Proof.
  destruct p as [|b p]; [left; reflexivity|]. cbn.
  intros [Hab _]%andb_prop. apply N.eqb_eq in Hab as ->.
  right. apply list_elem_of_here.
Qed.

Lemma Replaced_startswith old (c : char) n s r (p : str) :
  1 <= n -> c ∉ p ->
  Replaced old (mul [c] n) s r ->
  startswith p r = true -> startswith p s = true.
Proof.
  intros Hn. revert p.
  intros p Hc H. revert p Hc.
  induction H as [|rest rest' _ IH|a s s' _ _ IH]; intros p Hc Hp.
  - exact Hp.
  - destruct n as [|n]; [lia|]. cbn in Hp.
    destruct (startswith_head _ _ _ Hp) as [->|Hin]; [reflexivity | contradiction].
  - destruct p as [|b p]; [reflexivity|]. cbn in *.
    apply andb_prop in Hp as [Hab Hp]. rewrite Hab. cbn.
    apply IH; [|exact Hp]. intros Hin. apply Hc. apply list_elem_of_further, Hin.
Qed.

Lemma occurs_after_chars (c : char) n old rest :
  c ∉ old -> old <> [] -> occurs old (mul [c] n ++ rest) -> occurs old rest.
Proof.
  intros Hc Hold. induction n as [|n IH]; cbn; [trivial|].
  intros [Hp|Ho]%occurs_inv; [|apply IH, Ho].
  destruct (startswith_head _ _ _ Hp) as [->|Hin]; [congruence | contradiction].
Qed.

(** After every occurrence of [old] is replaced by as many copies of a
    character that [old] does not contain, [old] occurs nowhere. *)
Lemma Replaced_no_occurrence old (c : char) s r :
  old <> [] -> c ∉ old ->
  Replaced old (mul [c] (length old)) s r -> ~ occurs old r.
Proof.
  intros Hold Hc H.
  assert (Hn : 1 <= length old) by (destruct old; [congruence | cbn; lia]).
  remember (mul [c] (length old)) as new eqn:Hnew.
  induction H as [|rest rest' _ IH|a s s' Hp H IH].
  - intros Ho%occurs_nil. contradiction.
  - subst new. intros Ho.
    apply (occurs_after_chars c (length old) old rest' Hc Hold) in Ho.
    apply IH, Ho.
  - intros [Hp'|Ho]%occurs_inv; [|apply IH, Ho].
    subst new.
    assert (Hs : startswith old (a :: s) = true).
    { apply (Replaced_startswith old c (length old) (a :: s) (a :: s'));
        [assumption | assumption | constructor; assumption | exact Hp']. }
    congruence.
Qed.

(** ** Further properties of the filter *)

Section FurtherProperties.

Context {collaborators : Collaborators}.

Implicit Types (self : ProfanityFilter) (corpus : gset str).
Implicit Types (text word : str) (t : option float) (c : option str).

Lemma token_matches_dec corpus t word :
  token_matches corpus t word \/ ~ token_matches corpus t word.
Proof.
  destruct (hits_dec corpus (threshold_or_one t) word) as [Hh|Hh];
    [left | right]; rewrite token_matches_hits; assumption.
Qed.

(** The two ways [filter_text] ends: no token matches and it returns
    [False], or it reports the first token that matches. *)
Lemma filter_text_cases text t c self :
  (Forall (fun w => ~ token_matches (bad_words self) t w) (tokens self text)
   /\ fst (filter_text text t c self) = VBool false)
  \/
  (exists word,
     word ∈ tokens self text /\ token_matches (bad_words self) t word /\
     fst (filter_text text t c self) = report text c word).
Proof.
  rewrite filter_text_value. cbn [fst].
  destruct (none_or_some _ (tokens self text)
              (token_matches_dec (bad_words self) t)) as [Hn|He].
  - left. split; [assumption|]. apply scan_words_miss.
    eapply Forall_impl; [exact Hn|]. intros w Hw Hh. apply Hw.
    apply token_matches_hits. assumption.
  - right.
    destruct (first_satisfying _ _ (token_matches_dec (bad_words self) t) He)
      as (before & word & rest & Htok & Hb & Hw).
    exists word. split; [|split; [assumption|]].
    + rewrite Htok. apply elem_of_app. right. apply list_elem_of_here.
    + rewrite Htok. apply scan_words_hit.
      * eapply Forall_impl; [exact Hb|]. intros w Hn Hh. apply Hn.
        apply token_matches_hits. assumption.
      * apply token_matches_hits. assumption.
Qed.

Lemma token_nonempty self text word : word ∈ tokens self text -> word <> [].
Proof. intros H. apply (split_tokens _ _ H). Qed.

(** X1. The kind of value [filter_text] returns is fixed by
    [replace_character]: without one (or with the empty string) the result
    is a boolean; with a non-empty one it is [False] or a string, never
    [True]. *)
Theorem filter_text_verdict_kind self text t c :
  (c = None \/ c = Some [] -> exists b, fst (filter_text text t c self) = VBool b)
  /\
  (forall r : str, c = Some r -> r <> [] ->
     fst (filter_text text t c self) = VBool false \/
     exists redacted, fst (filter_text text t c self) = VStr redacted).
Proof.
  split.
  - intros Hc.
    destruct (filter_text_cases text t c self) as [[_ ->]|(w & _ & _ & ->)];
      [exists false; reflexivity|].
    exists true. destruct Hc as [-> | ->]; reflexivity.
  - intros r -> Hr.
    destruct (filter_text_cases text t (Some r) self) as [[_ ->]|(w & _ & _ & ->)];
      [left; reflexivity|].
    right. rewrite report_redacts by assumption. eexists. reflexivity.
Qed.

(** X2. The fuzzy branch only adds matches: a text that is flagged with the
    threshold unset is flagged with every threshold and every replacement
    character. *)
Theorem filter_text_exact_then_any self text c :
  flagged (fst (filter_text text None c self)) ->
  forall t c', flagged (fst (filter_text text t c' self)).
Proof.
  intros H t c'. rewrite filter_text_flagged in *.
  revert H. apply Exists_weaken. intros w [Hin|(x & [=] & _)].
  left. assumption.
Qed.

(** X3. A threshold outside the open interval from 0 to 1 (1 or more, an
    infinity, a NaN, zero or less) gives what the unset threshold gives. *)
Theorem filter_text_threshold_out_of_range self text (x : float) c :
  ((0 <? x) && (x <? 1))%float = false ->
  filter_text text (Some x) c self = filter_text text None c self.
Proof.
  intros Hx. rewrite !filter_text_value. f_equal.
  apply scan_words_exact; [|reflexivity].
  cbn. destruct (x =? 0)%float; [reflexivity | exact Hx].
Qed.

(** X4. Lowering a positive threshold never clears a text: what is flagged
    at the threshold [x] is flagged at every threshold [y] with
    [0 < y <= x]. *)
Theorem filter_text_threshold_monotone self text (x y : float) c :
  (0 <? y)%float = true -> (y <=? x)%float = true ->
  flagged (fst (filter_text text (Some x) c self)) ->
  flagged (fst (filter_text text (Some y) c self)).
Proof.
  intros H0 Hyx. rewrite !filter_text_flagged.
  apply Exists_weaken.
  intros w [Hin|(z & [= <-] & _ & H1 & b & Hb & Hs)]; [left; assumption|].
  right. exists y. split; [reflexivity|]. split; [assumption|].
  split; [apply (float_le_lt_trans y x 1); assumption|].
  exists b. split; [assumption|]. apply (float_le_lt_trans y x); assumption.
Qed.

(** X5. Redaction with a single character keeps the length of the text. *)
Theorem filter_text_redaction_length self text t (ch : char) (redacted : str) :
  fst (filter_text text t (Some [ch]) self) = VStr redacted ->
  length redacted = length text.
Proof.
  destruct (filter_text_cases text t (Some [ch]) self)
    as [[_ ->]|(w & Hw & _ & ->)]; [discriminate|].
  cbn. intros [= <-].
  apply (Replaced_length w (mul [ch] (length w))).
  - rewrite length_mul. cbn. lia.
  - apply replace_Replaced, (token_nonempty _ _ _ Hw).
Qed.

(** X6. The string [filter_text] returns for a single replacement character
    is the text with one matching token redacted, and that token occurs
    nowhere in it when the replacement character is not one of the token's
    own. *)
Theorem filter_text_redaction_removes self text t (ch : char) (redacted : str) :
  fst (filter_text text t (Some [ch]) self) = VStr redacted ->
  exists word,
    word ∈ tokens self text /\ token_matches (bad_words self) t word /\
    redacted = replace word (mul [ch] (length word)) text /\
    (ch ∉ word -> ~ occurs word redacted).
Proof.
  destruct (filter_text_cases text t (Some [ch]) self)
    as [[_ ->]|(w & Hw & Hm & ->)]; [discriminate|].
  cbn. intros [= <-]. exists w.
  split; [assumption|]. split; [assumption|]. split; [reflexivity|].
  intros Hch. apply (Replaced_no_occurrence w ch text).
  - apply (token_nonempty _ _ _ Hw).
  - assumption.
  - apply replace_Replaced, (token_nonempty _ _ _ Hw).
Qed.

(** X7. When no matching token occurs literally in the original text (the
    processing changed its spelling), a flagged text comes back unchanged:
    the result is the original text as a string, nothing redacted. *)
Theorem filter_text_redaction_misses self text t (r : str) :
  r <> [] ->
  flagged (fst (filter_text text t (Some r) self)) ->
  (forall word, word ∈ tokens self text ->
     token_matches (bad_words self) t word -> ~ occurs word text) ->
  fst (filter_text text t (Some r) self) = VStr text.
Proof.
  intros Hr Hf Hno.
  destruct (filter_text_cases text t (Some r) self)
    as [[_ Hv]|(w & Hw & Hm & Hv)]; [contradiction|].
  rewrite Hv, report_redacts by assumption. f_equal.
  apply replace_absent; [apply (token_nonempty _ _ _ Hw) | apply Hno; assumption].
Qed.

Lemma scan_words_same_members corpus corpus' text (x : float) c
    (words : list str) :
  ((0 <? x) && (x <? 1))%float = false ->
  Forall (fun w => w ∈ corpus <-> w ∈ corpus') words ->
  scan_words corpus text x c words = scan_words corpus' text x c words.
Proof.
  intros Hx. induction 1 as [|w words Hw _ IH]; cbn; [reflexivity|].
  rewrite Hx, IH.
  destruct (decide (w ∈ corpus)) as [Hin|Hin].
  - rewrite !bool_decide_eq_true_2; [reflexivity | apply Hw, Hin | exact Hin].
  - rewrite !bool_decide_eq_false_2; [reflexivity | rewrite <- Hw; exact Hin | exact Hin].
Qed.

(** X8. With the threshold unset, corpus entries that are empty or contain
    whitespace have no effect: two filters with the same processor whose
    corpora hold the same non-empty whitespace-free words return the same
    verdict for every text. *)
Theorem filter_text_ignores_phrases self self' text c :
  text_processor self = text_processor self' ->
  (forall w : str, w <> [] -> spaceless w ->
     (w ∈ bad_words self <-> w ∈ bad_words self')) ->
  fst (filter_text text None c self) = fst (filter_text text None c self').
Proof.
  intros Htp Hsame. rewrite !filter_text_value. cbn [fst].
  unfold tokens. rewrite <- Htp.
  apply scan_words_same_members; [reflexivity|].
  apply Forall_forall. intros w Hw.
  destruct (split_tokens _ _ Hw) as [Hne Hs]. apply Hsame; assumption.
Qed.

(** X9. [add_words] composes: adding two lists one after the other is
    adding their concatenation, in either order; adding no word changes
    nothing. *)
Theorem add_words_compose self (ws1 ws2 : list str) :
  snd (add_words ws2 (snd (add_words ws1 self)))
  = snd (add_words (ws1 ++ ws2) self)
  /\
  snd (add_words ws2 (snd (add_words ws1 self)))
  = snd (add_words ws1 (snd (add_words ws2 self)))
  /\
  snd (add_words [] self) = self.
Proof.
  rewrite !add_words_value.
  cbn [snd resource_dir text_processor language_files bad_words].
  split; [|split].
  - f_equal. rewrite map_app, list_to_set_app_L, (assoc_L (∪)). reflexivity.
  - f_equal. rewrite <- !(assoc_L (∪)). f_equal. apply (comm_L (∪)).
  - destruct self as [d p l b]. cbn. f_equal. apply (right_id_L ∅ (∪)).
Qed.

Lemma perform_frame (k : call) self :
  resource_dir (perform k self) = resource_dir self /\
  text_processor (perform k self) = text_processor self /\
  language_files (perform k self) = language_files self /\
  bad_words (perform k self)
  = bad_words self
    ∪ list_to_set (map (process_text (text_processor self)) (words_of k)).
Proof.
  destruct k as [words|text t c|]; cbn; repeat split;
    symmetry; apply (right_id_L ∅ (∪)).
Qed.

(** X10. Whatever calls are made on a filter, its language list, its
    processor and its resource directory stay what they were, so
    [get_all_languages] keeps returning the same list; and its corpus is
    exactly the corpus it started with plus the processed form of every word
    passed to [add_words]. *)
Theorem after_calls_state self (calls : list call) :
  language_files (after_calls calls self) = language_files self /\
  fst (get_all_languages (after_calls calls self))
  = fst (get_all_languages self) /\
  text_processor (after_calls calls self) = text_processor self /\
  resource_dir (after_calls calls self) = resource_dir self /\
  bad_words (after_calls calls self)
  = bad_words self
    ∪ list_to_set (map (process_text (text_processor self))
                     (flat_map words_of calls)).
Proof.
  assert (H : language_files (after_calls calls self) = language_files self /\
    text_processor (after_calls calls self) = text_processor self /\
    resource_dir (after_calls calls self) = resource_dir self /\
    bad_words (after_calls calls self)
    = bad_words self
      ∪ list_to_set (map (process_text (text_processor self))
                       (flat_map words_of calls))).
  { revert self. induction calls as [|k calls IH]; intros self.
    - cbn. repeat split. symmetry. apply (right_id_L ∅ (∪)).
    - destruct (perform_frame k self) as (Hd & Hp & Hl & Hb).
      destruct (IH (perform k self)) as (Hl' & Hp' & Hd' & Hb').
      change (after_calls (k :: calls) self)
        with (after_calls calls (perform k self)).
      rewrite Hl', Hp', Hd', Hb', Hl, Hp, Hd, Hb.
      repeat split. cbn [flat_map].
      rewrite map_app, list_to_set_app_L, (assoc_L (∪)). reflexivity. }
  destruct H as (Hl & Hp & Hd & Hb). repeat split; assumption.
Qed.


Lemma load_language_spec fs tp dir corpus lang (w : str) :
  w ∈ load_language fs tp dir corpus lang
  <-> w ∈ corpus \/ loaded fs tp dir lang w.
Proof.
  unfold load_language, loaded, word_list_of.
  destruct (str_isalpha (strip (str_lower lang))) eqn:Ha; cbn [negb].
  - destruct (word_list fs _) as [| |words] eqn:Hf.
    + split; [left; assumption|].
      intros [|(_ & ws & raw & [=] & _)]; assumption.
    + split; [left; assumption|].
      intros [|(_ & ws & raw & [=] & _)]; assumption.
    + rewrite elem_of_union, elem_of_list_to_set. split.
      * intros [Hin|Hin]; [left; assumption|]. right.
        apply list_elem_of_fmap in Hin as (raw & -> & Hraw).
        split; [reflexivity|]. exists words, raw. repeat split. assumption.
      * intros [Hin|(_ & ws & raw & [= <-] & Hraw & ->)]; [left; assumption|].
        right. apply list_elem_of_fmap. exists raw. split; [reflexivity | assumption].
  - split; [left; assumption|].
    intros [|([=] & _)]. assumption.
Qed.

Lemma foldl_load_language fs tp dir (langs : list str) corpus (w : str) :
  w ∈ foldl (load_language fs tp dir) corpus langs
  <-> w ∈ corpus \/ exists lang, lang ∈ langs /\ loaded fs tp dir lang w.
Proof.
  revert corpus. induction langs as [|l langs IH]; intros corpus; cbn.
  - split; [left; assumption|].
    intros [|(lang & Hin & _)]; [assumption | inversion Hin].
  - rewrite IH, load_language_spec. split.
    + intros [[Hin|Hl]|(lang & Hin & Hl)].
      * left. assumption.
      * right. exists l. split; [apply list_elem_of_here | assumption].
      * right. exists lang. split; [apply list_elem_of_further|]; assumption.
    + intros [Hin|(lang & [->|Hin]%elem_of_cons & Hl)].
      * left. left. assumption.
      * left. right. assumption.
      * right. exists lang. split; assumption.
Qed.

Lemma initialize_bad_words_spec_aux fs tp dir (langs : list str) (w : str) :
  w ∈ initialize_bad_words fs tp dir langs
  <-> exists lang, lang ∈ langs /\ loaded fs tp dir lang w.
Proof.
  unfold initialize_bad_words. rewrite foldl_load_language. split.
  - intros [Hin|H]; [|exact H]. exfalso. revert Hin. apply not_elem_of_empty.
  - intros H. right. exact H.
Qed.

(** X11. The corpus [initialize_bad_words] builds holds exactly the
    processed lines of the word lists it can read: a word is in it if and
    only if, for some language of the list whose sanitized code is
    alphabetic, the word list of that code exists, can be read, and has a
    line of which the word is the processed form. A code that is not
    alphabetic, a missing file and an unreadable file contribute nothing and
    stop nothing. *)
Theorem initialize_bad_words_spec fs tp dir (langs : list str) (w : str) :
  w ∈ initialize_bad_words fs tp dir langs
  <-> exists lang, lang ∈ langs /\ loaded fs tp dir lang w.
Proof.
  unfold initialize_bad_words. rewrite foldl_load_language. split.
  - intros [Hin|H]; [|exact H]. exfalso. revert Hin. apply not_elem_of_empty.
  - intros H. right. exact H.
Qed.

Lemma loaded_same_code fs tp dir (lang lang' w : str) :
  strip (str_lower lang) = strip (str_lower lang') ->
  loaded fs tp dir lang w -> loaded fs tp dir lang' w.
Proof. unfold loaded, word_list_of. intros ->. trivial. Qed.

(** X12. The corpus depends on the language list only through the set of
    its sanitized codes (lower-cased, stripped): the order of the codes,
    repetitions, letter case and surrounding whitespace make no
    difference. *)
Theorem initialize_bad_words_codes fs tp dir (langs langs' : list str) :
  (forall code : str,
     code ∈ map (fun l => strip (str_lower l)) langs
     <-> code ∈ map (fun l => strip (str_lower l)) langs') ->
  initialize_bad_words fs tp dir langs = initialize_bad_words fs tp dir langs'.
Proof.
  intros Hcodes. apply leibniz_equiv. apply set_equiv. intros w.
  rewrite !initialize_bad_words_spec_aux.
  assert (Hdir : forall l1 l2 : list str,
    (forall code : str,
       code ∈ map (fun l => strip (str_lower l)) l1 ->
       code ∈ map (fun l => strip (str_lower l)) l2) ->
    (exists lang, lang ∈ l1 /\ loaded fs tp dir lang w) ->
    exists lang, lang ∈ l2 /\ loaded fs tp dir lang w).
  { intros l1 l2 Hsub (lang & Hin & Hl).
    assert (Hc : strip (str_lower lang) ∈ map (fun l => strip (str_lower l)) l1)
      by (apply list_elem_of_fmap; exists lang; split; [reflexivity | assumption]).
    apply Hsub, list_elem_of_fmap in Hc as (lang' & Heq & Hin').
    exists lang'. split; [assumption|].
    apply (loaded_same_code _ _ _ lang); assumption. }
  split; apply Hdir; intros code; apply Hcodes.
Qed.

Lemma loaded_same_files fs fs' tp dir (lang w : str) :
  (forall code : str,
     str_isalpha code = true ->
     word_list fs (path_join dir (code ++ lit ".bdw"))
     = word_list fs' (path_join dir (code ++ lit ".bdw"))) ->
  loaded fs tp dir lang w -> loaded fs' tp dir lang w.
Proof.
  unfold loaded, word_list_of. intros Hsame (Ha & words & raw & Hf & Hraw & ->).
  split; [assumption|]. exists words, raw.
  rewrite <- (Hsame _ Ha). repeat split; assumption.
Qed.

(** X13. [initialize_bad_words] reads no file other than
    [<dir>/<code>.bdw] for an alphabetic [code]: two file systems that agree
    on those files give the same corpus, whatever else they hold and
    whatever the language list contains. *)
Theorem initialize_bad_words_paths fs fs' tp dir (langs : list str) :
  (forall code : str,
     str_isalpha code = true ->
     word_list fs (path_join dir (code ++ lit ".bdw"))
     = word_list fs' (path_join dir (code ++ lit ".bdw"))) ->
  initialize_bad_words fs tp dir langs = initialize_bad_words fs' tp dir langs.
Proof.
  intros Hsame. apply leibniz_equiv. apply set_equiv. intros w.
  rewrite !initialize_bad_words_spec_aux.
  split; intros (lang & Hin & Hl); exists lang; (split; [assumption|]).
  - apply (loaded_same_files fs fs'); assumption.
  - apply (loaded_same_files fs' fs); [|assumption].
    intros code Ha. symmetry. apply Hsame, Ha.
Qed.

(** X14. The two ways [init] fails. When the resource directory cannot be
    listed it raises [OSError], whatever languages are requested; and it
    raises [NotSupportedLanguage] only for a non-empty requested list with a
    code outside the discovered ones. *)
Theorem init_errors fs languages (n a tr h : bool) :
  (iterdir fs (path_join (module_dir fs) (lit "resource")) = None ->
   init fs languages n a tr h = Raised OSError)
  /\
  (init fs languages n a tr h = Raised OSError ->
   iterdir fs (path_join (module_dir fs) (lit "resource")) = None)
  /\
  (init fs languages n a tr h = Raised NotSupportedLanguage ->
   exists discovered requested,
     initialize_language_files fs (path_join (module_dir fs) (lit "resource"))
     = Returned discovered /\
     languages = Some requested /\ requested <> [] /\
     Exists (fun i => i ∉ discovered) requested).
Proof.
  unfold init, initialize_language_files.
  destruct (iterdir fs _) as [paths|]; [|repeat split; congruence].
  split; [discriminate|].
  destruct languages as [[|i l]|]; [split; discriminate| |split; discriminate].
  destruct (forallb _ (i :: l)) eqn:Hall; [split; discriminate|].
  split; [discriminate|]. intros _.
  exists (map slice_m6_m4 paths), (i :: l).
  repeat split; [discriminate|].
  destruct (none_or_some (fun j => j ∉ map slice_m6_m4 paths) (i :: l)) as [Hn|He].
  - intros j. destruct (decide (j ∈ map slice_m6_m4 paths)) as [Hj|Hj];
      [right; intros Hn; apply Hn, Hj | left; exact Hj].
  - exfalso.
    assert (Hf : Forall (fun j => j ∈ map slice_m6_m4 paths) (i :: l)).
    { eapply Forall_impl; [exact Hn|]. intros j Hj.
      destruct (decide (j ∈ map slice_m6_m4 paths)) as [Hin|Hin];
        [exact Hin | exfalso; apply Hj, Hin]. }
    apply forallb_known in Hf. congruence.
  - exact He.
Qed.

(** X15. What an initialised filter is made of: its resource directory is
    [resource] under the module's directory, its processor has the four
    switches given, each of its languages is a discovered one, and its
    corpus is the one [initialize_bad_words] loads for its own language
    list. *)
Theorem init_returned fs languages (n a tr h : bool) self :
  init fs languages n a tr h = Returned self ->
  exists discovered,
    initialize_language_files fs (path_join (module_dir fs) (lit "resource"))
    = Returned discovered /\
    resource_dir self = path_join (module_dir fs) (lit "resource") /\
    text_processor self
    = {| processing_normalize_text := n;
         processing_aggressive_normalize := a;
         processing_transliterate := tr;
         processing_replace_homoglyphs := h |} /\
    Forall (fun lang => lang ∈ discovered) (language_files self) /\
    bad_words self
    = initialize_bad_words fs (text_processor self) (resource_dir self)
        (language_files self).
Proof.
  unfold init.
  destruct (initialize_language_files fs _) as [discovered|e]; [|discriminate].
  intros Hinit. exists discovered. split; [reflexivity|].
  assert (Hall : forall l : list str, Forall (fun lang => lang ∈ l) l).
  { intros l. apply Forall_forall. trivial. }
  destruct languages as [[|i l]|].
  - injection Hinit as <-. cbn. repeat split. apply Hall.
  - destruct (forallb _ (i :: l)) eqn:Hf; [|discriminate].
    injection Hinit as <-. cbn. repeat split.
    apply forallb_known. exact Hf.
  - injection Hinit as <-. cbn. repeat split. apply Hall.
Qed.

(** X16. A word list entry is found again: for a filter [init] returns, a
    line [raw] of a readable word list of one of its languages (with an
    alphabetic sanitized code) is flagged by [filter_text(raw)], provided
    its processed form is a single token (non-empty, without whitespace). *)
Theorem init_then_filter_text fs languages (n a tr h : bool) self
    (lang raw : str) (words : list str) :
  init fs languages n a tr h = Returned self ->
  lang ∈ language_files self ->
  str_isalpha (strip (str_lower lang)) = true ->
  word_list_of fs (resource_dir self) lang = Lines words ->
  raw ∈ words ->
  process_text (text_processor self) raw <> [] ->
  spaceless (process_text (text_processor self) raw) ->
  fst (filter_text raw None None self) = VBool true /\
  forall t c, flagged (fst (filter_text raw t c self)).
Proof.
  intros Hinit Hlang Ha Hf Hraw Hne Hs.
  assert (Hb : bad_words self
               = initialize_bad_words fs (text_processor self)
                   (resource_dir self) (language_files self)).
  { revert Hinit. unfold init.
    destruct (initialize_language_files fs _) as [discovered|e]; [|discriminate].
    destruct languages as [[|i l]|];
      [| destruct (forallb _ (i :: l)); [|discriminate] |];
      intros [= <-]; reflexivity. }
  assert (Hin : process_text (text_processor self) raw ∈ bad_words self).
  { rewrite Hb. apply initialize_bad_words_spec_aux. exists lang.
    split; [assumption|]. split; [assumption|].
    exists words, raw. repeat split; assumption. }
  assert (Hscan : forall t c,
    fst (filter_text raw t c self)
    = report raw c (process_text (text_processor self) raw)).
  { intros t c. rewrite filter_text_value. cbn [fst].
    unfold tokens. rewrite (split_spaceless _ Hne Hs).
    apply (scan_words_hit _ _ _ _ [] []); [constructor | left; exact Hin]. }
  split; [apply Hscan|]. intros t c. rewrite Hscan. apply report_flagged.
Qed.

Lemma slice_code (pre code ext : str) :
  length code = 2 -> length ext = 4 -> slice_m6_m4 (pre ++ code ++ ext) = code.
Proof.
  intros Hc He. unfold slice_m6_m4. rewrite !length_app, Hc, He.
  replace (length pre + (2 + 4) - 4) with (length (pre ++ code))
    by (rewrite length_app; lia).
  rewrite (assoc_L (++)), take_app_length.
  replace (length pre + (2 + 4) - 6) with (length pre) by lia.
  apply drop_app_length.
Qed.

(** X17. Discovery reads the codes off the file names: for a directory that
    holds the word lists [<code>.bdw] of two-character codes,
    [initialize_language_files] returns those codes, in the order of the
    listing. *)
Theorem initialize_language_files_codes fs (dir : str) (codes : list str) :
  iterdir fs dir
  = Some (map (fun code => path_join dir (code ++ lit ".bdw")) codes) ->
  Forall (fun code => length code = 2) codes ->
  initialize_language_files fs dir = Returned codes.
Proof.
  intros Hdir Hcodes. unfold initialize_language_files. rewrite Hdir. f_equal.
  clear Hdir. induction Hcodes as [|code codes Hc _ IH]; cbn [map]; [reflexivity|].
  f_equal; [|exact IH].
  unfold path_join.
  rewrite (assoc_L (++) dir (lit "/")).
  apply slice_code; [assumption | reflexivity].
Qed.

(** X18. A filter with an empty corpus flags nothing: [filter_text] returns
    [False] for every text, threshold and replacement character. *)
Theorem filter_text_empty_corpus self text t c :
  bad_words self = ∅ -> fst (filter_text text t c self) = VBool false.
Proof.
  intros He.
  destruct (filter_text_cases text t c self) as [[_ Hv]|(w & _ & Hm & _)];
    [exact Hv|].
  exfalso. rewrite He in Hm.
  destruct Hm as [Hin|(x & _ & _ & _ & b & Hb & _)];
    [revert Hin | revert Hb]; apply not_elem_of_empty.
Qed.

End FurtherProperties.


(** ** Worked examples

    The filters below use the [reference] collaborators: a processor with
    every switch off, and the reference matcher. *)

#[local] Existing Instance reference.

Example filter_text_badword :
  fst (filter_text (lit "this is a badword here") None None
         (filter_with [lit "badword"]))
  = VBool true.
Proof. vm_compute. reflexivity. Qed.

Example filter_text_badword_redacted :
  fst (filter_text (lit "this is a badword here") None (Some (lit "*"))
         (filter_with [lit "badword"]))
  = VStr (lit "this is a ******* here").
Proof. vm_compute. reflexivity. Qed.

Example filter_text_clean :
  fst (filter_text (lit "this is clean text") None None
         (filter_with [lit "badword"]))
  = VBool false.
Proof. vm_compute. reflexivity. Qed.

(** A near miss is let through at threshold 1 and caught at 0.5: the ratio
    of "badwerd" and "badword" is 12/14. *)
Example filter_text_near_miss :
  similar (lit "badwerd") (lit "badword") = (12 / 14)%float /\
  fst (filter_text (lit "a badwerd") (Some 1%float) None
         (filter_with [lit "badword"])) = VBool false /\
  fst (filter_text (lit "a badwerd") (Some 0.5%float) None
         (filter_with [lit "badword"])) = VBool true.
Proof. repeat split; vm_compute; reflexivity. Qed.

(** The token that is replaced is the processed one: where processing leaves
    the text as it is, a capitalised word is neither matched nor replaced. *)
Example filter_text_case :
  fst (filter_text (lit "a Badword") None (Some (lit "*"))
         (filter_with [lit "badword"]))
  = VBool false.
Proof. vm_compute. reflexivity. Qed.

(** Occurrences inside other words are replaced too. *)
Example filter_text_inner_occurrence :
  fst (filter_text (lit "bad badly") None (Some (lit "#"))
         (filter_with [lit "bad"]))
  = VStr (lit "### ###ly").
Proof. vm_compute. reflexivity. Qed.

(** [filter_with [lit "badword"]] is the filter [init] builds from the
    package directory [one_language]. *)
Example init_one_language :
  init one_language None false false false false
  = Returned (filter_with [lit "badword"]).
Proof. vm_compute. reflexivity. Qed.

(** C1 at "this is a badword here": the token "badword" is the first to
    match, and the text comes back with seven stars in its place. *)
Lemma filter_text_reports_first_match_example :
  fst (filter_text (lit "this is a badword here") None (Some (lit "*"))
         (filter_with [lit "badword"]))
  = VStr (lit "this is a ******* here")
  /\
  fst (filter_text (lit "this is a badword here") None None
         (filter_with [lit "badword"]))
  = VBool true.
Proof.
  assert (H : Exists (token_matches (bad_words (filter_with [lit "badword"])) None)
                (tokens (filter_with [lit "badword"])
                   (lit "this is a badword here"))).
  { apply Exists_exists. exists (lit "badword").
    split; [compute_done | left; compute_done]. }
  destruct (filter_text_reports_first_match _ _ _ H)
    as (before & word & rest & _ & _ & Hw & Hr & Hb & _).
  split; [|exact Hb].
  assert (Hword : word = lit "badword").
  { destruct Hw as [Hin|(x & [=] & _)].
    apply elem_of_list_to_set, list_elem_of_singleton in Hin. exact Hin. }
  subst word.
  destruct (Hr (lit "*")) as (redacted & Hv & Hred); [discriminate|].
  rewrite Hv. f_equal.
  rewrite (Redacted_unique _ _ _ _ _ Hred
             (replace_Redacted (lit "badword")
                (concat (replicate (length (lit "badword")) (lit "*")))
                (lit "this is a badword here") ltac:(discriminate))).
  vm_compute. reflexivity.
Defined.

(** C2 at the threshold 0.5: the near miss "badwerd" has the ratio 12/14
    with "badword" and is flagged; no token of "this is clean text" has a
    ratio above 0.5 with it, and that text is not flagged. *)
Lemma filter_text_matching_rule_example :
  flagged (fst (filter_text (lit "a badwerd") (Some 0.5%float) None
                  (filter_with [lit "badword"])))
  /\
  ~ flagged (fst (filter_text (lit "this is clean text") (Some 0.5%float) None
                    (filter_with [lit "badword"]))).
Proof.
  split.
  - apply (proj2 (filter_text_matching_rule (filter_with [lit "badword"])
                    (lit "a badwerd") (Some 0.5%float) None)
             0.5%float eq_refl eq_refl eq_refl).
    exists (lit "badwerd"). split; [compute_done|].
    right. exists (lit "badword"). split; [compute_done|].
    vm_compute. reflexivity.
  - intros Hf.
    apply (proj2 (filter_text_matching_rule (filter_with [lit "badword"])
                    (lit "this is clean text") (Some 0.5%float) None)
             0.5%float eq_refl eq_refl eq_refl) in Hf.
    destruct Hf as (w & Hw & Hm).
    assert (Htok : tokens (filter_with [lit "badword"]) (lit "this is clean text")
                   = [lit "this"; lit "is"; lit "clean"; lit "text"])
      by (vm_compute; reflexivity).
    rewrite Htok in Hw.
    assert (Hb : forall b : str,
              b ∈ bad_words (filter_with [lit "badword"]) -> b = lit "badword").
    { intros b Hb. apply elem_of_list_to_set, list_elem_of_singleton in Hb.
      exact Hb. }
    repeat (apply elem_of_cons in Hw as [->|Hw];
      [ destruct Hm as [Hin|(b & Hin & Hs)];
        [ revert Hin; compute_done
        | apply Hb in Hin; subst b; vm_compute in Hs; discriminate ] | ]).
    inversion Hw.
Defined.

(** C3 as the specification states it fails for a phrase: "bad word" is not
    flagged before [add_words(["bad word"])], and is not flagged after it
    either, because its two tokens are looked up one by one. *)
Lemma add_words_phrase_not_flagged :
  fst (filter_text (lit "bad word") None None (filter_with [lit "badword"]))
  = VBool false
  /\
  fst (filter_text (lit "bad word") None None
         (snd (add_words [lit "bad word"] (filter_with [lit "badword"]))))
  = VBool false.
Proof. split; vm_compute; reflexivity. Qed.

(** C3, as the code has it, at the single word "badword". *)
Lemma add_words_monotone_example :
  fst (filter_text (lit "badword") None None
         (snd (add_words [lit "badword"] (filter_with []))))
  = VBool true.
Proof.
  apply (proj1 (add_words_monotone (filter_with []) (lit "badword"))).
  - vm_compute. discriminate.
  - vm_compute. repeat constructor.
Defined.

(** C4 as the specification states it fails twice. For the empty list
    every requested code is known, yet the filter is not restricted to the
    (empty) list: it has every discovered language and their words. And
    when [init] raises for the unknown code "zz" on a fresh object, the
    object is left half initialised: its [language_files] is the discovered
    list. *)
Lemma init_empty_list_not_restricted :
  (exists f,
     init_self one_language (Some []) false false false false fresh
     = (Returned tt, initialised f) /\
     language_files f = [lit "en"] /\
     language_files f <> [] /\
     lit "badword" ∈ bad_words f)
  /\
  (exists left,
     init_self one_language (Some [lit "zz"]) false false false false fresh
     = (Raised NotSupportedLanguage, left) /\
     self_language_files left = Some [lit "en"] /\
     left <> fresh).
Proof.
  split.
  - exists (filter_with [lit "badword"]).
    split; [vm_compute; reflexivity|].
    split; [reflexivity|]. split; [discriminate|]. compute_done.
  - eexists. split; [vm_compute; reflexivity|].
    split; [reflexivity | discriminate].
Qed.

(** C4, as the code has it, at the unknown code "zz" on a fresh object. *)
Lemma init_language_list_example :
  fst (init_self one_language (Some [lit "zz"]) false false false false fresh)
  = Raised NotSupportedLanguage
  /\
  self_bad_words
    (snd (init_self one_language (Some [lit "zz"]) false false false false
            fresh))
  = None
  /\
  self_language_files
    (snd (init_self one_language (Some [lit "zz"]) false false false false
            fresh))
  = Some [lit "en"].
Proof.
  destruct (proj1 (init_language_list one_language false false false false
                     [lit "en"] [lit "zz"] fresh eq_refl ltac:(discriminate)))
    as (left & Heq & Hb & Hl & _).
  - constructor. compute_done.
  - rewrite Heq. cbn [fst snd]. rewrite Hb, Hl. repeat split.
Defined.

(** C6 at the thresholds 0 and -0.25. *)
Lemma filter_text_nonpositive_threshold_example :
  filter_text (lit "a badwerd") (Some 0%float) None (filter_with [lit "badword"])
  = filter_text (lit "a badwerd") None None (filter_with [lit "badword"])
  /\
  filter_text (lit "a badwerd") (Some (-0.25)%float) None
    (filter_with [lit "badword"])
  = filter_text (lit "a badwerd") None None (filter_with [lit "badword"]).
Proof.
  split.
  - apply (filter_text_nonpositive_threshold (filter_with [lit "badword"])
             (lit "a badwerd") 0%float None eq_refl).
  - apply (filter_text_nonpositive_threshold (filter_with [lit "badword"])
             (lit "a badwerd") (-0.25)%float None eq_refl).
Defined.

(** C10 at a text of three spaces. *)
Lemma filter_text_no_tokens_example :
  fst (filter_text (lit "   ") (Some 0.5%float) (Some (lit "*"))
         (filter_with [lit "badword"]))
  = VBool false.
Proof.
  apply (filter_text_no_tokens (filter_with [lit "badword"]) (lit "   ")).
  vm_compute. repeat constructor.
Defined.

(** C5 at "this is clean text". *)
Lemma filter_text_no_match_example :
  fst (filter_text (lit "this is clean text") (Some 0.5%float) (Some (lit "*"))
         (filter_with [lit "badword"]))
  = VBool false.
Proof.
  apply (proj2 (filter_text_no_match (filter_with [lit "badword"])
                  (lit "this is clean text") (Some 0.5%float) (Some (lit "*")))).
  assert (Htok : tokens (filter_with [lit "badword"]) (lit "this is clean text")
                 = [lit "this"; lit "is"; lit "clean"; lit "text"])
    by (vm_compute; reflexivity).
  rewrite Htok.
  repeat constructor;
    (intros [Hin|(x & [= <-] & _ & _ & b & Hb & Hs)];
     [ revert Hin; compute_done
     | apply elem_of_list_to_set, list_elem_of_singleton in Hb; subst b;
       vm_compute in Hs; discriminate ]).
Defined.

(** C7 at a word the corpus already holds. *)
Lemma corpus_never_shrinks_example :
  bad_words (snd (add_words [lit "badword"] (filter_with [lit "badword"])))
  = bad_words (filter_with [lit "badword"]).
Proof.
  apply (corpus_never_shrinks (filter_with [lit "badword"]) [lit "badword"] []).
  constructor; [compute_done | constructor].
Defined.

(** ** Worked examples of the further properties *)

(** X2 at "this is a badword here". *)
Lemma filter_text_exact_then_any_example :
  flagged (fst (filter_text (lit "this is a badword here") (Some 0.5%float)
                  (Some (lit "*")) (filter_with [lit "badword"]))).
Proof.
  apply (filter_text_exact_then_any (filter_with [lit "badword"])
           (lit "this is a badword here") None).
  vm_compute. discriminate.
Defined.

(** X3 at the thresholds 2 and NaN. *)
Lemma filter_text_threshold_out_of_range_example :
  filter_text (lit "a badwerd") (Some 2%float) None (filter_with [lit "badword"])
  = filter_text (lit "a badwerd") None None (filter_with [lit "badword"])
  /\
  filter_text (lit "a badwerd") (Some nan) None (filter_with [lit "badword"])
  = filter_text (lit "a badwerd") None None (filter_with [lit "badword"]).
Proof.
  split.
  - apply (filter_text_threshold_out_of_range (filter_with [lit "badword"])
             (lit "a badwerd") 2%float None eq_refl).
  - apply (filter_text_threshold_out_of_range (filter_with [lit "badword"])
             (lit "a badwerd") nan None eq_refl).
Defined.

(** X4 at the thresholds 0.75 and 0.5, for the near miss "badwerd". *)
Lemma filter_text_threshold_monotone_example :
  flagged (fst (filter_text (lit "a badwerd") (Some 0.5%float) None
                  (filter_with [lit "badword"]))).
Proof.
  apply (filter_text_threshold_monotone (filter_with [lit "badword"])
           (lit "a badwerd") 0.75%float 0.5%float None eq_refl eq_refl).
  vm_compute. discriminate.
Defined.

(** X5 at "this is a badword here". *)
Lemma filter_text_redaction_length_example :
  length (lit "this is a ******* here") = length (lit "this is a badword here").
Proof.
  apply (filter_text_redaction_length (filter_with [lit "badword"])
           (lit "this is a badword here") None 42%N).
  vm_compute. reflexivity.
Defined.

(** X6 at "this is a badword here". *)
Lemma filter_text_redaction_removes_example :
  exists word,
    word ∈ tokens (filter_with [lit "badword"]) (lit "this is a badword here") /\
    token_matches (bad_words (filter_with [lit "badword"])) None word /\
    lit "this is a ******* here"
    = replace word (mul [42%N] (length word)) (lit "this is a badword here") /\
    (42%N ∉ word -> ~ occurs word (lit "this is a ******* here")).
Proof.
  apply (filter_text_redaction_removes (filter_with [lit "badword"])
           (lit "this is a badword here") None 42%N).
  vm_compute. reflexivity.
Defined.

(** X7 at "a Badword", for a processor that folds case: the token
    "badword" matches, does not occur in the text, and the text comes back
    as it was. *)
Lemma filter_text_redaction_misses_example :
  fst (filter_text (collaborators := folding) (lit "a Badword") None
         (Some (lit "*")) (folding_filter_with [lit "badword"]))
  = VStr (lit "a Badword").
Proof.
  apply (filter_text_redaction_misses (collaborators := folding)).
  - discriminate.
  - vm_compute. discriminate.
  - assert (Htok : tokens (collaborators := folding)
                     (folding_filter_with [lit "badword"]) (lit "a Badword")
                   = [lit "a"; lit "badword"]) by (vm_compute; reflexivity).
    rewrite Htok. intros word [->|[->|Hin]%elem_of_cons]%elem_of_cons.
    + intros [Hin|(x & [=] & _)]. exfalso. revert Hin. compute_done.
    + intros _. cbv -[occurs not].
      intros H.
      repeat (apply occurs_inv in H as [H|H]; [vm_compute in H; discriminate|]).
      apply occurs_nil in H. discriminate.
    + inversion Hin.
Defined.

(** X8 at a corpus with and without the phrase "bad word". *)
Lemma filter_text_ignores_phrases_example :
  fst (filter_text (lit "a bad word") None None
         (filter_with [lit "badword"; lit "bad word"]))
  = fst (filter_text (lit "a bad word") None None (filter_with [lit "badword"])).
Proof.
  apply (filter_text_ignores_phrases
           (filter_with [lit "badword"; lit "bad word"])
           (filter_with [lit "badword"])); [reflexivity|].
  intros w _ Hs. cbn [bad_words filter_with].
  rewrite !elem_of_list_to_set, !elem_of_cons, !elem_of_nil.
  split; [|tauto].
  intros [->|[->|[]]]; [left; reflexivity|].
  exfalso. unfold spaceless in Hs. rewrite Forall_forall in Hs.
  specialize (Hs 32%N). discriminate Hs. compute_done.
Defined.

(** X12 at the lists ["en"; "EN "] and ["en"]. *)
Lemma initialize_bad_words_codes_example :
  initialize_bad_words one_language switches_off (lit "/pkg/badwords/resource")
    [lit "en"; lit "EN "]
  = initialize_bad_words one_language switches_off (lit "/pkg/badwords/resource")
      [lit "en"].
Proof.
  apply initialize_bad_words_codes.
  assert (H1 : map (fun l => strip (str_lower l)) [lit "en"; lit "EN "]
               = [lit "en"; lit "en"]) by (vm_compute; reflexivity).
  assert (H2 : map (fun l => strip (str_lower l)) [lit "en"] = [lit "en"])
    by (vm_compute; reflexivity).
  rewrite H1, H2. intros code. rewrite !elem_of_cons. tauto.
Defined.

(** X13 at a file system with a word list outside the reach of the codes. *)
Lemma initialize_bad_words_paths_example :
  initialize_bad_words one_language switches_off (lit "/pkg/badwords/resource")
    [lit "en"; lit "../x"]
  = initialize_bad_words one_language_and_more switches_off
      (lit "/pkg/badwords/resource") [lit "en"; lit "../x"].
Proof.
  apply initialize_bad_words_paths.
  intros code Ha. cbn [word_list one_language_and_more].
  rewrite (bool_decide_eq_false_2
             (path_join (lit "/pkg/badwords/resource") (code ++ lit ".bdw")
              = lit "/pkg/badwords/resource/../x.bdw")); [reflexivity|].
  change (lit "/pkg/badwords/resource/../x.bdw")
    with (path_join (lit "/pkg/badwords/resource") (lit "../x" ++ lit ".bdw")).
  unfold path_join. intros H.
  apply app_inv_head, app_inv_head, app_inv_tail in H. subst code.
  vm_compute in Ha. discriminate.
Defined.

(** X15 at the package directory with one word list. *)
Lemma init_returned_example :
  exists discovered,
    initialize_language_files one_language
      (path_join (module_dir one_language) (lit "resource"))
    = Returned discovered /\
    resource_dir (filter_with [lit "badword"])
    = path_join (module_dir one_language) (lit "resource") /\
    text_processor (filter_with [lit "badword"])
    = {| processing_normalize_text := false;
         processing_aggressive_normalize := false;
         processing_transliterate := false;
         processing_replace_homoglyphs := false |} /\
    Forall (fun lang => lang ∈ discovered)
      (language_files (filter_with [lit "badword"])) /\
    bad_words (filter_with [lit "badword"])
    = initialize_bad_words one_language
        (text_processor (filter_with [lit "badword"]))
        (resource_dir (filter_with [lit "badword"]))
        (language_files (filter_with [lit "badword"])).
Proof.
  apply (init_returned one_language None false false false false).
  vm_compute. reflexivity.
Defined.

(** X16 at the line "badword" of [en.bdw]. *)
Lemma init_then_filter_text_example :
  fst (filter_text (lit "badword") None None (filter_with [lit "badword"]))
  = VBool true.
Proof.
  apply (init_then_filter_text one_language None false false false false
           (filter_with [lit "badword"]) (lit "en") (lit "badword")
           [lit "badword"]).
  - vm_compute. reflexivity.
  - compute_done.
  - vm_compute. reflexivity.
  - vm_compute. reflexivity.
  - compute_done.
  - vm_compute. discriminate.
  - vm_compute. repeat constructor.
Defined.

(** X17 at the package directory with one word list. *)
Lemma initialize_language_files_codes_example :
  initialize_language_files one_language (lit "/pkg/badwords/resource")
  = Returned [lit "en"].
Proof.
  apply initialize_language_files_codes.
  - vm_compute. reflexivity.
  - repeat constructor.
Defined.

(** X18 at a filter without words. *)
Lemma filter_text_empty_corpus_example :
  fst (filter_text (lit "this is a badword here") (Some 0.5%float)
         (Some (lit "*")) (filter_with []))
  = VBool false.
Proof.
  apply (filter_text_empty_corpus (filter_with [])). reflexivity.
Defined.
